(** * treelist: size report and directory tree of a remote listing

    A shallow embedding of [treelist-gen6.6.py].  Python values are modelled
    as the code uses them: [int] as [Z], [str] as [string] (sequences of code
    points below 256), a [dict] as an association list in insertion order
    (Python dicts iterate in insertion order, and the renderer depends on
    it), and exceptions through a small error monad. *)

From Stdlib Require Import ZArith QArith List String Ascii Bool Lia.
From Stdlib Require Import Permutation Sorted DecimalString Qpower.
From Stdlib Require OrderedTypeEx.
Import ListNotations.

Set Warnings "-register-all".

Local Open Scope string_scope.
Local Open Scope Z_scope.

(** ** Exceptions *)

Inductive exn : Type :=
| KeyError (key : string)
| TypeError
| AttributeError
| ValueError (msg : string)
| FileNotFoundError (name : string).

Inductive result (A : Type) : Type :=
| Ok (a : A)
| Raise (e : exn).

Arguments Ok {A} a.
Arguments Raise {A} e.

Definition bind {A B : Type} (r : result A) (f : A -> result B) : result B :=
  match r with
  | Ok a => f a
  | Raise e => Raise e
  end.

Notation "x <- e1 ;; e2" := (bind e1 (fun x => e2))
  (at level 61, e1 at next level, right associativity).

(** ** Strings *)

Module PyStr.

(** [s.split(sep)] for a one-character separator. *)
Fixpoint split (sep : ascii) (s : string) : list string :=
  match s with
  | EmptyString => [EmptyString]
  | String c r =>
      if Ascii.eqb c sep then EmptyString :: split sep r
      else match split sep r with
           | [] => [String c EmptyString]
           | h :: t => String c h :: t
           end
  end.

(** [sep.join(parts)] *)
Definition join (sep : string) (parts : list string) : string :=
  String.concat sep parts.

(** [s.rstrip(c)] for a one-character set. *)
Fixpoint rstrip (c : ascii) (s : string) : string :=
  match s with
  | EmptyString => EmptyString
  | String a r =>
      match rstrip c r with
      | EmptyString => if Ascii.eqb a c then EmptyString else String a EmptyString
      | r' => String a r'
      end
  end.

(** [str.lower] on code points below 256: the ASCII capitals and the
    Latin-1 capitals (0xC0-0xDE but for the multiplication sign 0xD7) move
    up by 32. *)
Definition lower_char (c : ascii) : ascii :=
  let n := N_of_ascii c in
  if ((65 <=? n) && (n <=? 90))%N
     || ((192 <=? n) && (n <=? 222) && negb (n =? 215))%N
  then ascii_of_N (n + 32) else c.

Fixpoint lower (s : string) : string :=
  match s with
  | EmptyString => EmptyString
  | String c r => String (lower_char c) (lower r)
  end.

(** [\d] on code points below 256. *)
Definition is_digit (c : ascii) : bool :=
  let n := N_of_ascii c in ((48 <=? n) && (n <=? 57))%N.

End PyStr.

(** ** Dictionaries in insertion order *)

Section Dict.
Context {V : Type}.

Definition odict := list (string * V).

(** [d.get(k)] *)
Fixpoint dict_get (k : string) (d : odict) : option V :=
  match d with
  | [] => None
  | (k', v) :: r => if String.eqb k' k then Some v else dict_get k r
  end.

(** [k in d] *)
Definition dict_mem (k : string) (d : odict) : bool :=
  match dict_get k d with Some _ => true | None => false end.

(** [d[k]] *)
Definition dict_item (k : string) (d : odict) : result V :=
  match dict_get k d with Some v => Ok v | None => Raise (KeyError k) end.

(** [d[k] = v]: an existing key keeps its place, a new one goes last. *)
Fixpoint dict_set (k : string) (v : V) (d : odict) : odict :=
  match d with
  | [] => [(k, v)]
  | (k', v') :: r =>
      if String.eqb k' k then (k', v) :: r else (k', v') :: dict_set k v r
  end.

Definition keys (d : odict) : list string := map fst d.
Definition values (d : odict) : list V := map snd d.
End Dict.

Arguments odict V : clear implicits.

(** ** Entries of the listing *)

Record Entry : Type := mkEntry { Path : string; IsDir : bool; Size : Z }.

(** ** Depth aggregator *)

(** [dir_path] of line 24. *)
Definition dir_path (depth : Z) (file : Entry) : string :=
  let path_parts := PyStr.split "/" (Path file) in
  if 0 <? depth then PyStr.join "/" (firstn (Z.to_nat depth) path_parts)
  else Path file.

(** One turn of the loop of [group_by_depth_and_sum_size]. *)
Definition group_step (depth : Z) (grouped : odict Z) (file : Entry)
  : result (odict Z) :=
  if IsDir file then Ok grouped
  else
    let k := dir_path depth file in
    let grouped := if negb (dict_mem k grouped) then dict_set k 0 grouped
                   else grouped in
    old <- dict_item k grouped ;;
    Ok (dict_set k (old + Size file) grouped).

Fixpoint group_loop (depth : Z) (files : list Entry) (grouped : odict Z)
  : result (odict Z) :=
  match files with
  | [] => Ok grouped
  | file :: rest =>
      grouped' <- group_step depth grouped file ;;
      group_loop depth rest grouped'
  end.

Definition group_by_depth_and_sum_size (files : list Entry) (depth : Z)
  : result (odict Z) :=
  group_loop depth files [].

(** ** Unit conversion *)

Definition units : odict Z :=
  [("kb", 1024); ("mb", 1024 ^ 2); ("gb", 1024 ^ 3)].

(** [units.get(unit.lower(), 1)] *)
Definition unit_divisor (unit : string) : Z :=
  match dict_get (PyStr.lower unit) units with
  | Some d => d
  | None => 1
  end.

(** [size_bytes / units.get(unit.lower(), 1)]: true division of two
    integers, kept here as the exact quotient (the float Python returns is
    this quotient rounded to binary64, so it is the quotient itself when
    that is a binary64 value, see [binary64_exact]). *)
Definition convert_size (size_bytes : Z) (unit : string) : Q :=
  (inject_Z size_bytes / inject_Z (unit_divisor unit))%Q.

(** [f"{size:.2f}"] of the printed report: two decimals, rounded half to
    even. *)
Definition round_half_even (q : Q) : Z :=
  let n := Qnum q in
  let d := Z.pos (Qden q) in
  let f := n / d in
  let r := 2 * (n mod d) in
  if r <? d then f else if d <? r then f + 1
  else if Z.even f then f else f + 1.

Definition format_2f (q : Q) : string :=
  let h := round_half_even (Z.abs (Qnum q) * 100 # Qden q) in
  let frac := Z.to_N (h mod 100) in
  (if Qnum q <? 0 then "-" else EmptyString)
  ++ NilZero.string_of_uint (N.to_uint (Z.to_N (h / 100))) ++ "."
  ++ String (ascii_of_N (48 + frac / 10))
       (String (ascii_of_N (48 + frac mod 10)) EmptyString).

(** ** Python values of the tree *)

(** The values that occur in the trees: integers, booleans and dictionaries
    keyed by strings. *)
Inductive pyval : Type :=
| PInt (z : Z)
| PBool (b : bool)
| PDict (items : list (string * pyval)).

Definition Z_of_bool (b : bool) : Z := if b then 1 else 0.

(** [isinstance(v, dict)] *)
Definition is_dict (v : pyval) : bool :=
  match v with PDict _ => true | _ => false end.

(** Truth value of [v] in a condition. *)
Definition truthy (v : pyval) : bool :=
  match v with
  | PInt z => negb (z =? 0)
  | PBool b => b
  | PDict items => match items with [] => false | _ => true end
  end.

(** [k in v] *)
Definition py_contains (k : string) (v : pyval) : result bool :=
  match v with
  | PDict d => Ok (dict_mem k d)
  | _ => Raise TypeError
  end.

(** [v[k]] *)
Definition py_getitem (v : pyval) (k : string) : result pyval :=
  match v with
  | PDict d => dict_item k d
  | _ => Raise TypeError
  end.

(** [v[k] = x] *)
Definition py_setitem (v : pyval) (k : string) (x : pyval) : result pyval :=
  match v with
  | PDict d => Ok (PDict (dict_set k x d))
  | _ => Raise TypeError
  end.

(** [v + n] for an integer [n] ([bool] is a subtype of [int]). *)
Definition py_add (v : pyval) (n : Z) : result pyval :=
  match v with
  | PInt z => Ok (PInt (z + n))
  | PBool b => Ok (PInt (Z_of_bool b + n))
  | PDict _ => Raise TypeError
  end.

(** [v[k] += n] *)
Definition py_iadd_item (v : pyval) (k : string) (n : Z) : result pyval :=
  old <- py_getitem v k ;;
  new <- py_add old n ;;
  py_setitem v k new.

(** Python's [==] on these values: integers and booleans by value,
    dictionaries when they have as many keys and every key of the left one
    is bound in the right one to an equal value. *)
Fixpoint py_eq (a b : pyval) : bool :=
  match a, b with
  | PInt x, PInt y => x =? y
  | PInt x, PBool y => x =? Z_of_bool y
  | PBool x, PInt y => Z_of_bool x =? y
  | PBool x, PBool y => Bool.eqb x y
  | PDict xs, PDict ys =>
      (List.length xs =? List.length ys)%nat
      && (fix all (l : list (string * pyval)) : bool :=
            match l with
            | [] => true
            | (k, v) :: r =>
                match dict_get k ys with
                | Some w => py_eq v w
                | None => false
                end && all r
            end) xs
  | _, _ => false
  end.

(** ** Tree builder *)

(** The dictionary literal of lines 75-79 and 89-93. *)
Definition node_literal (size : pyval) : pyval :=
  PDict [("_size", size); ("_children", PDict []); ("_isdir", PBool false)].

(** [enumerate(parts)] *)
Definition enumerate {A : Type} (l : list A) : list (nat * A) :=
  combine (seq 0 (List.length l)) l.

Section Builder.
(** What the branch of lines 88-94 puts in place of a node that is not a
    dictionary; the program's own is [node_literal]. *)
Variable fallback : pyval -> pyval.

(** The inner loop (lines 70-97) over the remaining [(i, part)] pairs,
    with [last = len(parts) - 1].  [current] is the dictionary the loop
    stands in; the result is that dictionary after the loop's updates
    (nodes are fresh objects, each referenced from its parent only, so an
    update of a node is an update of the parent at its key). *)
Fixpoint walk (is_dir : bool) (size : Z) (last : Z)
         (ps : list (nat * string)) (current : pyval) {struct ps}
  : result pyval :=
  match ps with
  | [] => Ok current
  | (i, part) :: rest =>
      if String.eqb part EmptyString then walk is_dir size last rest current
      else
        present <- py_contains part current ;;
        current <- (if negb present
                    then py_setitem current part (node_literal (PInt 0))
                    else Ok current) ;;
        node <- py_getitem current part ;;
        if Z.of_nat i =? last then
          node <- (if is_dir then py_setitem node "_isdir" (PBool true)
                   else py_iadd_item node "_size" size) ;;
          current <- py_setitem current part node ;;
          walk is_dir size last rest current
        else
          node <- (if negb (is_dict node) then Ok (fallback node)
                   else Ok node) ;;
          node <- py_iadd_item node "_size" size ;;
          children <- py_getitem node "_children" ;;
          children <- walk is_dir size last rest children ;;
          node <- py_setitem node "_children" children ;;
          py_setitem current part node
  end.

(** The body of the outer loop (lines 64-97) for one entry. *)
Definition add_entry (tree : pyval) (entry : Entry) : result pyval :=
  let path := PyStr.rstrip "/" (Path entry) in
  let is_dir := IsDir entry in
  let parts := if String.eqb path EmptyString then [] else PyStr.split "/" path in
  let size := if negb is_dir then Size entry else 0 in
  walk is_dir size (Z.of_nat (List.length parts) - 1) (enumerate parts) tree.

Fixpoint add_entries (entries : list Entry) (tree : pyval) : result pyval :=
  match entries with
  | [] => Ok tree
  | entry :: rest =>
      tree <- add_entry tree entry ;;
      add_entries rest tree
  end.

(** The tree as it stands at line 98, before [clean_node]. *)
Definition raw_tree (entries : list Entry) : result pyval :=
  add_entries entries (PDict []).
End Builder.

(** [clean_node] (lines 99-108).  The recursive call is on [v['_children']];
    it is written inside the search for that key so that the recursion is
    structural.  The interpreter's recursion limit is left out here;
    [clean_node_within] below has it. *)
Fixpoint clean_node (node : pyval) : result pyval :=
  match node with
  | PDict items =>
      (fix loop (l : list (string * pyval)) (cleaned : odict pyval)
         : result pyval :=
         match l with
         | [] => Ok (PDict cleaned)
         | (k, v) :: rest =>
             match v with
             | PDict vitems =>
                 match
                   (fix children (xs : list (string * pyval))
                      : option (result pyval) :=
                      match xs with
                      | [] => None
                      | (k', c) :: r =>
                          if String.eqb k' "_children"
                          then Some (clean_node c)
                          else children r
                      end) vitems
                 with
                 | Some sub =>
                     sub <- sub ;;
                     size <- dict_item "_size" vitems ;;
                     sub <- py_setitem sub "_size" size ;;
                     isdir <- dict_item "_isdir" vitems ;;
                     sub <- py_setitem sub "_isdir" isdir ;;
                     loop rest (dict_set k sub cleaned)
                 | None => loop rest (dict_set k v cleaned)
                 end
             | _ => loop rest (dict_set k v cleaned)
             end
         end) items []
  | _ => Raise AttributeError
  end.

(** [build_tree_structure] *)
Definition build_tree_with (fallback : pyval -> pyval) (entries : list Entry)
  : result pyval :=
  tree <- raw_tree fallback entries ;;
  clean_node tree.

Definition build_tree_structure (entries : list Entry) : result pyval :=
  build_tree_with node_literal entries.

(** ** Tree renderer *)

(** [int] or [float('inf')], the values of [extract_number]. *)
Inductive number : Type :=
| Int (n : Z)
| Inf.

Definition number_ltb (a b : number) : bool :=
  match a, b with
  | Int x, Int y => x <? y
  | Int _, Inf => true
  | Inf, _ => false
  end.

(** The match of [^(\d+)]: the longest prefix of digits. *)
Fixpoint leading_digits (s : string) : string :=
  match s with
  | EmptyString => EmptyString
  | String c r =>
      if PyStr.is_digit c then String c (leading_digits r) else EmptyString
  end.

(** [int(ds)] on a string of digits, most significant first. *)
Fixpoint int_of_digits (acc : Z) (ds : string) : Z :=
  match ds with
  | EmptyString => acc
  | String c r => int_of_digits (10 * acc + (Z.of_N (N_of_ascii c) - 48)) r
  end.

Definition extract_number (name : string) : number :=
  match leading_digits name with
  | EmptyString => Inf
  | ds => Int (int_of_digits 0 ds)
  end.

(** [list.sort(key=...)]: a stable sort that compares keys with [<]. *)
Section Sort.
Context {A K : Type}.
Variable ltb : K -> K -> bool.
Variable key : A -> K.

Fixpoint insert_by (x : A) (l : list A) : list A :=
  match l with
  | [] => [x]
  | y :: r => if ltb (key y) (key x) then y :: insert_by x r else x :: y :: r
  end.

Definition sort_by (l : list A) : list A := fold_right insert_by [] l.
End Sort.

Definition dquote : string := String (ascii_of_nat 34) EmptyString.

(** An item of [node.items()] together with the rendering of its value one
    level down (used for directories only). *)
Definition item : Type := string * pyval * result string.

Definition item_name (it : item) : string := fst (fst it).
Definition item_value (it : item) : pyval := snd (fst it).
Definition item_html (it : item) : result string := snd it.

(** The test of lines 127-128 that sends an item to [dirs]. *)
Definition is_dir_value (value : pyval) : bool :=
  match value with
  | PDict d =>
      match dict_get "_isdir" d with
      | Some flag => truthy flag
      | None => false
      end
  | _ => false
  end.

(** [name in ['_size', '_isdir']] *)
Definition reserved (name : string) : bool :=
  String.eqb name "_size" || String.eqb name "_isdir".

(** The loop of lines 123-133: [(dirs, files)] in the order of the items. *)
Fixpoint split_items (items : list item) : list item * list item :=
  match items with
  | [] => ([], [])
  | it :: rest =>
      let (dirs, files) := split_items rest in
      if reserved (item_name it) then (dirs, files)
      else if is_dir_value (item_value it) then (it :: dirs, files)
      else (dirs, it :: files)
  end.

Definition lower_name (it : item) : string := PyStr.lower (item_name it).
Definition number_of (it : item) : number := extract_number (item_name it).

(** Lines 136-139. *)
Definition sort_dirs (current_depth : Z) (dirs : list item) : list item :=
  if current_depth =? 1 then sort_by number_ltb number_of dirs
  else sort_by String.ltb lower_name dirs.

(** Line 142. *)
Definition sort_files (files : list item) : list item :=
  sort_by String.ltb lower_name files.

Definition folder_li (name sub : string) : string :=
  "<li><span class=" ++ dquote ++ "folder" ++ dquote ++ ">" ++ name
  ++ "</span>" ++ sub ++ "</li>".

Definition file_li (name : string) : string :=
  "<li><span class=" ++ dquote ++ "file" ++ dquote ++ ">" ++ name
  ++ "</span></li>".

(** Lines 145-146. *)
Fixpoint emit_dirs (dirs : list item) (html : string) : result string :=
  match dirs with
  | [] => Ok html
  | it :: rest =>
      sub <- item_html it ;;
      emit_dirs rest (html ++ folder_li (item_name it) sub)
  end.

(** Lines 149-150. *)
Fixpoint emit_files (files : list item) (html : string) : string :=
  match files with
  | [] => html
  | it :: rest => emit_files rest (html ++ file_li (item_name it))
  end.

(** [generate_tree_html].  The function is pure, so the rendering of every
    value one level down is computed with the items (which makes the
    recursion structural); only the directories' renderings are used.  The
    interpreter's recursion limit is left out. *)
Fixpoint generate_tree_html (node : pyval) (current_depth : Z)
  : result string :=
  match node with
  | PDict items =>
      let rendered :=
        (fix each (l : list (string * pyval)) : list item :=
           match l with
           | [] => []
           | (name, value) :: r =>
               (name, value, generate_tree_html value (current_depth + 1))
                 :: each r
           end) items in
      let (dirs, files) := split_items rendered in
      let dirs := sort_dirs current_depth dirs in
      let files := sort_files files in
      html <- emit_dirs dirs "<ul>" ;;
      let html := emit_files files html in
      Ok (html ++ "</ul>")
  | _ => Raise AttributeError
  end.

(** ** Rendering from the persisted report *)

(** The values under the keys of a persisted report: [remote] and [unit] are
    strings, [files] is the entry list, [directories] the converted sizes. *)
Inductive json_value : Type :=
| JString (s : string)
| JFiles (entries : list Entry)
| JSizes (sizes : odict Q).

(** The files on disk: contents by name. *)
Definition file_system : Type := string -> option string.

Definition read_file (name : string) (fs : file_system) : result string :=
  match fs name with
  | Some text => Ok text
  | None => Raise (FileNotFoundError name)
  end.

(** Writing a file.  Files are told apart by the spelling of their names,
    and opening one for writing is taken to succeed. *)
Definition write_file (name text : string) (fs : file_system) : file_system :=
  fun n => if String.eqb n name then Some text else fs n.

Definition as_entries (v : json_value) : result (list Entry) :=
  match v with
  | JFiles entries => Ok entries
  | _ => Raise TypeError
  end.

Definition missing_files_message : string :=
  "JSON missing 'files' key. Use --generate-tree flag.".

Section Report.
(** [json.load] on the text of a file holding a JSON object, and
    [str.format] with the single field [tree_structure]. *)
Variable json_load : string -> result (odict json_value).
Variable format_template : string -> string -> result string.

(** [generate_html_from_json]: the outcome and the files afterwards. *)
Definition generate_html_from_json (json_file : string) (fs : file_system)
  : result unit * file_system :=
  match read_file "template.html" fs with
  | Raise e => (Raise e, fs)
  | Ok html_template =>
      match (text <- read_file json_file fs ;; json_load text) with
      | Raise e => (Raise e, fs)
      | Ok json_data =>
          if negb (dict_mem "files" json_data)
          then (Raise (ValueError missing_files_message), fs)
          else
            match (files <- dict_item "files" json_data ;;
                   entries <- as_entries files ;;
                   tree <- build_tree_structure entries ;;
                   generate_tree_html tree 1) with
            | Raise e => (Raise e, fs)
            | Ok tree_html =>
                (* open("treelist.html", "w") empties the file *)
                let fs := write_file "treelist.html" EmptyString fs in
                match format_template html_template tree_html with
                | Raise e => (Raise e, fs)
                | Ok text => (Ok tt, write_file "treelist.html" text fs)
                end
            end
      end
  end.
End Report.

(** ** Definitions for the statements and the proofs *)

Definition sumZ (l : list Z) : Z := fold_right Z.add 0 l.

(** The group key in the words of the specification: the first [depth]
    segments rejoined when [depth] is not zero, the full path when it is. *)
Definition group_key (depth : Z) (file : Entry) : string :=
  if depth =? 0 then Path file
  else PyStr.join "/" (firstn (Z.to_nat depth) (PyStr.split "/" (Path file))).

(** The files (not directories) of the listing that fall under [key]. *)
Definition in_group (depth : Z) (key : string) (file : Entry) : bool :=
  negb (IsDir file) && String.eqb (group_key depth file) key.

Definition is_file (e : Entry) : bool := negb (IsDir e).

(** [<=] on the values of [extract_number]: integers by value, infinity
    last. *)
Definition number_leb (a b : number) : bool :=
  match a, b with
  | Int x, Int y => x <=? y
  | _, Inf => true
  | Inf, Int _ => false
  end.

Definition concat_all (l : list string) : string :=
  fold_right append EmptyString l.

(** The children of a node that the renderer lists as directories, and those
    it lists as files, in the order of the node's items. *)
Definition dir_children (items : odict pyval) : odict pyval :=
  filter (fun kv => negb (reserved (fst kv)) && is_dir_value (snd kv)) items.

Definition file_children (items : odict pyval) : odict pyval :=
  filter (fun kv => negb (reserved (fst kv)) && negb (is_dir_value (snd kv)))
         items.

Definition by_number (a b : string * pyval) : Prop :=
  number_leb (extract_number (fst a)) (extract_number (fst b)) = true.

(** The sort key of the top level in the words of the specification: the
    integer value, in base ten, of the digits a name starts with; names
    without a leading digit have none and go last. *)
Fixpoint digit_values (name : string) : list Z :=
  match name with
  | EmptyString => []
  | String c r =>
      if PyStr.is_digit c then (Z.of_N (N_of_ascii c) - 48) :: digit_values r
      else []
  end.

Fixpoint decimal_value (digits : list Z) : Z :=
  match digits with
  | [] => 0
  | d :: r => d * 10 ^ Z.of_nat (List.length r) + decimal_value r
  end.

Definition leading_number (name : string) : option Z :=
  match digit_values name with
  | [] => None
  | digits => Some (decimal_value digits)
  end.

Definition leading_number_le (x y : option Z) : Prop :=
  match x, y with
  | Some m, Some n => m <= n
  | _, None => True
  | None, Some _ => False
  end.

Definition by_leading_number (a b : string * pyval) : Prop :=
  leading_number_le (leading_number (fst a)) (leading_number (fst b)).

Definition by_lower_name (a b : string * pyval) : Prop :=
  String.leb (PyStr.lower (fst a)) (PyStr.lower (fst b)) = true.

(** The items of a node with the renderings one level down, as
    [generate_tree_html] pairs them. *)
Definition rendered (items : odict pyval) (current_depth : Z) : list item :=
  map (fun kv => (fst kv, snd kv,
                  generate_tree_html (snd kv) (current_depth + 1))) items.

Definition html_or_empty (r : result string) : string :=
  match r with Ok s => s | Raise _ => EmptyString end.

(** *** Views of the tree under construction *)

(** A node dictionary with its three keys. *)
Definition mk_node (size : Z) (children : odict pyval) (isdir : bool)
  : pyval :=
  PDict [("_size", PInt size); ("_children", PDict children);
         ("_isdir", PBool isdir)].

Definition node_size (v : pyval) : Z :=
  match v with
  | PDict d => match dict_get "_size" d with Some (PInt s) => s | _ => 0 end
  | _ => 0
  end.

Definition node_isdir (v : pyval) : bool :=
  match v with
  | PDict d => match dict_get "_isdir" d with Some (PBool b) => b | _ => false end
  | _ => false
  end.

Definition node_children (v : pyval) : odict pyval :=
  match v with
  | PDict d =>
      match dict_get "_children" d with Some (PDict c) => c | _ => [] end
  | _ => []
  end.

Definition nonempty (s : string) : bool := negb (String.eqb s EmptyString).

(** [parts] of line 66, and the parts the inner loop does not skip. *)
Definition parts_of (entry : Entry) : list string :=
  let path := PyStr.rstrip "/" (Path entry) in
  if String.eqb path EmptyString then [] else PyStr.split "/" path.

Definition segments (entry : Entry) : list string :=
  filter nonempty (parts_of entry).

(** [size] of line 68. *)
Definition entry_size (entry : Entry) : Z :=
  if negb (IsDir entry) then Size entry else 0.

Fixpoint last_char (s : string) : option ascii :=
  match s with
  | EmptyString => None
  | String c r => match last_char r with None => Some c | found => found end
  end.

(** The node under a key, or the node the loop creates there. *)
Definition child_or_new (t : odict pyval) (k : string) : pyval :=
  match dict_get k t with
  | Some v => v
  | None => mk_node 0 [] false
  end.

(** What the inner loop does to a tree of node dictionaries, on the parts it
    does not skip. *)
Fixpoint insert_path (is_dir : bool) (size : Z) (segs : list string)
         (t : odict pyval) : odict pyval :=
  match segs with
  | [] => t
  | k :: rest =>
      let node := child_or_new t k in
      let s := node_size node in
      let cs := node_children node in
      let b := node_isdir node in
      match rest with
      | [] => dict_set k (if is_dir then mk_node s cs true
                          else mk_node (s + size) cs b) t
      | _ :: _ =>
          dict_set k (mk_node (s + size) (insert_path is_dir size rest cs) b) t
      end
  end.

(** The node reached from the top of the tree under construction along a
    path of names. *)
Fixpoint node_at (t : odict pyval) (p : list string) : option pyval :=
  match p with
  | [] => None
  | k :: rest =>
      match dict_get k t with
      | None => None
      | Some v =>
          match rest with
          | [] => Some v
          | _ :: _ => node_at (node_children v) rest
          end
      end
  end.

Fixpoint is_prefix (p l : list string) : bool :=
  match p, l with
  | [], _ => true
  | x :: p', y :: l' => String.eqb x y && is_prefix p' l'
  | _ :: _, [] => false
  end.

Definition same_path (p q : list string) : bool :=
  if list_eq_dec string_dec p q then true else false.

(** The entry lies at or beneath the path. *)
Definition under (p : list string) (e : Entry) : bool :=
  is_prefix p (segments e).

(** The sizes of the file entries at or beneath a path, and of those whose
    path it is. *)
Definition subtree_size (entries : list Entry) (p : list string) : Z :=
  sumZ (map Size (filter (fun e => is_file e && under p e) entries)).

Definition own_size (entries : list Entry) (p : list string) : Z :=
  sumZ (map Size
            (filter (fun e => is_file e && same_path (segments e) p) entries)).

(** Some directory entry has this path. *)
Definition marked_dir (entries : list Entry) (p : list string) : bool :=
  existsb (fun e => IsDir e && same_path (segments e) p) entries.

(** What is left of [l] after the prefix [p], when [p] is one. *)
Fixpoint strip_prefix (p l : list string) : option (list string) :=
  match p, l with
  | [], _ => Some l
  | x :: p', y :: l' => if String.eqb x y then strip_prefix p' l' else None
  | _ :: _, [] => None
  end.

Definition is_nil {A : Type} (l : list A) : bool :=
  match l with [] => true | _ :: _ => false end.

Definition node_or_new (o : option pyval) : pyval :=
  match o with Some v => v | None => mk_node 0 [] false end.

(** A node after the inner loop has gone through it with [rest] still to
    go. *)
Definition touched (is_dir : bool) (size : Z) (rest : list string)
           (v : pyval) : pyval :=
  mk_node (node_size v + size)
          (insert_path is_dir size rest (node_children v))
          (node_isdir v || (is_dir && is_nil rest)).

(** The sum of the sizes of the nodes of a children mapping, and what a
    node's size has beyond it. *)
Definition nodes_size (cs : odict pyval) : Z :=
  sumZ (map (fun kv => node_size (snd kv)) cs).

Definition slack (v : pyval) : Z := node_size v - nodes_size (node_children v).

(** The outer loop on a tree of node dictionaries. *)
Definition insert_entry (t : odict pyval) (entry : Entry) : odict pyval :=
  insert_path (IsDir entry) (entry_size entry) (segments entry) t.

Definition insert_entries (entries : list Entry) (t : odict pyval)
  : odict pyval :=
  fold_left insert_entry entries t.

(** Trees of node dictionaries with distinct keys, all accepted by [ok]. *)
Inductive wf_tree (ok : string -> bool) : odict pyval -> Prop :=
| wf_nil : wf_tree ok []
| wf_cons k s cs b rest :
    ok k = true -> ~ In k (keys rest) ->
    wf_tree ok cs -> wf_tree ok rest ->
    wf_tree ok ((k, mk_node s cs b) :: rest).

Definition any_key (k : string) : bool := true.
Definition plain_key (k : string) : bool := negb (reserved k).

(** Every value stored in a children mapping, at any depth, is a dictionary
    with the keys [_size], [_children] and [_isdir]. *)
Inductive full_nodes : pyval -> Prop :=
| full_nodes_dict items :
    (forall k v, In (k, v) items ->
       exists d children,
         v = PDict d
         /\ dict_mem "_size" d = true
         /\ dict_mem "_isdir" d = true
         /\ dict_get "_children" d = Some children
         /\ full_nodes children) ->
    full_nodes (PDict items).

(** *** Views of the tree that is returned *)

(** [cleaned[k]] of one item of [clean_node]'s loop, and the loop. *)
Definition clean_value (v : pyval) : result pyval :=
  match v with
  | PDict vitems =>
      match dict_get "_children" vitems with
      | Some c =>
          sub <- clean_node c ;;
          size <- dict_item "_size" vitems ;;
          sub <- py_setitem sub "_size" size ;;
          isdir <- dict_item "_isdir" vitems ;;
          py_setitem sub "_isdir" isdir
      | None => Ok v
      end
  | _ => Ok v
  end.

Fixpoint clean_items (l : odict pyval) (cleaned : odict pyval)
  : result pyval :=
  match l with
  | [] => Ok (PDict cleaned)
  | (k, v) :: rest =>
      x <- clean_value v ;;
      clean_items rest (dict_set k x cleaned)
  end.

(** A cleaned node: the cleaned children, then its size and flag. *)
Definition cleaned_node (size : Z) (children : odict pyval) (isdir : bool)
  : pyval :=
  PDict (dict_set "_isdir" (PBool isdir)
           (dict_set "_size" (PInt size) children)).

(** [cleaned t c]: [c] is [t] with every node cleaned. *)
Inductive cleaned : odict pyval -> odict pyval -> Prop :=
| cleaned_nil : cleaned [] []
| cleaned_cons k s cs b rest cc crest :
    cleaned cs cc -> cleaned rest crest ->
    cleaned ((k, mk_node s cs b) :: rest) ((k, cleaned_node s cc b) :: crest).

(** [t[k1][k2]...[kn]] *)
Fixpoint tree_get (t : pyval) (p : list string) : option pyval :=
  match p with
  | [] => Some t
  | k :: rest =>
      match t with
      | PDict d =>
          match dict_get k d with
          | Some v => tree_get v rest
          | None => None
          end
      | _ => None
      end
  end.

(** The children of a returned node: its items but [_size] and [_isdir]. *)
Definition child_nodes (d : odict pyval) : odict pyval :=
  filter (fun kv => negb (reserved (fst kv))) d.

Definition children_size (d : odict pyval) : Z :=
  sumZ (map (fun kv => node_size (snd kv)) (child_nodes d)).

(** Two dictionaries bind the same keys to values that are [==]. *)
Definition dict_equiv (c c' : odict pyval) : Prop :=
  forall k,
    match dict_get k c, dict_get k c' with
    | Some v, Some w => py_eq v w = true
    | None, None => True
    | _, _ => False
    end.

(** Two trees under construction have a node at the same paths, with the
    same size and flag. *)
Definition same_nodes (t t' : odict pyval) : Prop :=
  forall p,
    p <> [] ->
    match node_at t p, node_at t' p with
    | Some v, Some v' =>
        node_size v = node_size v' /\ node_isdir v = node_isdir v'
    | None, None => True
    | _, _ => False
    end.

(** The sizes of the file-type nodes (flag not set) beneath a returned
    node. *)
Fixpoint file_descendants_size (v : pyval) : Z :=
  match v with
  | PDict items =>
      (fix over (l : list (string * pyval)) : Z :=
         match l with
         | [] => 0
         | (k, c) :: r =>
             (if reserved k then 0
              else (if is_dir_value c then 0 else node_size c)
                   + file_descendants_size c)
             + over r
         end) items
  | _ => 0
  end.

(** [x] may stand before [y] in a list sorted by [key]: [y]'s key is not
    below [x]'s. *)
Definition not_after {A K : Type} (ltb : K -> K -> bool) (key : A -> K)
           (x y : A) : Prop :=
  ltb (key y) (key x) = false.

(** ** Saving the reports and [main] *)

Definition newline : string := String (ascii_of_nat 10) EmptyString.

(** [dict(pairs)], also a dictionary comprehension over pairs: the pairs are
    set one after the other. *)
Definition dict_of_items {V : Type} (l : list (string * V)) : odict V :=
  fold_left (fun d kv => dict_set (fst kv) (snd kv) d) l [].

(** [sorted(d.items(), key=lambda x: x[0])] *)
Definition sorted_items {V : Type} (d : odict V) : list (string * V) :=
  sort_by String.ltb fst d.

(** [{k: convert_size(v, unit) for k, v in grouped.items()}] *)
Definition converted_sizes (grouped : odict Z) (unit : string) : odict Q :=
  dict_of_items (map (fun kv => (fst kv, convert_size (snd kv) unit)) grouped).

(** [f"{path}: {size:.2f}"] *)
Definition report_line (kv : string * Q) : string :=
  fst kv ++ ": " ++ format_2f (snd kv).

(** [str(n)] for an integer. *)
Definition str_of_Z (n : Z) : string := NilZero.string_of_int (Z.to_int n).

(** The parsed command line. *)
Record Args : Type := mkArgs {
  arg_remote : string;
  arg_output : string;
  arg_depth : Z;
  arg_unit : string;
  arg_generate_tree : bool
}.

(** How a run ends: normally, with one of the built-in exceptions, or with
    the plain [Exception] of [run_rclone_lsjson]. *)
Inductive ended (A : Type) : Type :=
| Returns (a : A)
| Raises (e : exn)
| RaisesException (msg : string).

Arguments Returns {A} a.
Arguments Raises {A} e.
Arguments RaisesException {A} msg.

Definition ended_of_result {A : Type} (r : result A) : ended A :=
  match r with Ok a => Returns a | Raise e => Raises e end.

Section Main.
(** [subprocess.run(command, capture_output=True, text=True)]: the return
    code, the standard output and the standard error; [json.loads] on the
    output of [rclone lsjson]; [json.dump(result, f, indent=4)]; [json.load]
    and [str.format] as for [generate_html_from_json]. *)
Variable subprocess_run : list string -> Z * string * string.
Variable json_loads : string -> result (list Entry).
Variable json_dump : odict json_value -> string.
Variable json_load : string -> result (odict json_value).
Variable format_template : string -> string -> result string.

Definition run_rclone_lsjson (remote_path : string) : ended (list Entry) :=
  let command := ["rclone"; "lsjson"; remote_path; "--recursive"] in
  let '(returncode, stdout, stderr) := subprocess_run command in
  if negb (returncode =? 0)
  then RaisesException ("Error running rclone: " ++ stderr)
  else ended_of_result (json_loads stdout).

Definition save_grouped_data (data : odict Q)
           (output_file remote_name unit : string) (fs : file_system)
  : file_system :=
  let result := [("remote", JString remote_name); ("unit", JString unit);
                 ("directories", JSizes data)] in
  write_file output_file (json_dump result) fs.

Definition save_files_data (files : list Entry)
           (output_file remote_name unit : string) (fs : file_system)
  : file_system :=
  let result := [("remote", JString remote_name); ("unit", JString unit);
                 ("files", JFiles files)] in
  write_file output_file (json_dump result) fs.

(** [args.remote.split(':')[0]] *)
Definition remote_name_of (remote : string) : string :=
  match PyStr.split ":" remote with
  | name :: _ => name
  | [] => EmptyString
  end.

(** [main] after the command line is parsed: how it ends, the files
    afterwards and the lines printed. *)
Definition main (args : Args) (fs : file_system)
  : ended unit * file_system * list string :=
  let remote_name := remote_name_of (arg_remote args) in
  let out := ["Fetching data from " ++ arg_remote args ++ "..."] in
  match run_rclone_lsjson (arg_remote args) with
  | Raises e => (Raises e, fs, out)
  | RaisesException msg => (RaisesException msg, fs, out)
  | Returns files =>
      if arg_generate_tree args then
        let out := List.app out ["Saving raw file data..."] in
        let fs := save_files_data files (arg_output args) remote_name
                                  (arg_unit args) fs in
        let out := List.app out ["Generating HTML tree..."] in
        match generate_html_from_json json_load format_template
                                      (arg_output args) fs with
        | (Raise e, fs) => (Raises e, fs, out)
        | (Ok _, fs) =>
            (Returns tt, fs, List.app out ["Tree saved to treelist.html"])
        end
      else
        let out := List.app out ["Analyzing directory structure at depth "
                                 ++ str_of_Z (arg_depth args) ++ "..."] in
        match group_by_depth_and_sum_size files (arg_depth args) with
        | Raise e => (Raises e, fs, out)
        | Ok grouped =>
            let converted := converted_sizes grouped (arg_unit args) in
            let sorted_data := dict_of_items (sorted_items converted) in
            let out := List.app out [newline ++ "Directory sizes ("
                                     ++ arg_unit args ++ "):"] in
            let out := List.app out (map report_line sorted_data) in
            (Returns tt,
             save_grouped_data sorted_data (arg_output args) remote_name
                               (arg_unit args) fs,
             out)
        end
  end.
End Main.

(** ** Definitions for further properties *)

(** The character occurs in the string. *)
Fixpoint has_char (c : ascii) (s : string) : bool :=
  match s with
  | EmptyString => false
  | String a r => Ascii.eqb a c || has_char c r
  end.

(** The string is made of this character only (the empty string too). *)
Fixpoint only_char (c : ascii) (s : string) : bool :=
  match s with
  | EmptyString => true
  | String a r => Ascii.eqb a c && only_char c r
  end.

Definition number_eqb (a b : number) : bool :=
  match a, b with
  | Int x, Int y => x =? y
  | Inf, Inf => true
  | _, _ => false
  end.

(** Two items that the renderer cannot tell apart: the same name, and
    either the same directory value or two values that are both not
    directories. *)
Definition same_for_renderer (kv kv' : string * pyval) : Prop :=
  fst kv = fst kv'
  /\ if is_dir_value (snd kv) then snd kv' = snd kv
     else is_dir_value (snd kv') = false.

(** The string is made of digits only, and it starts with a digit. *)
Fixpoint all_digits (s : string) : bool :=
  match s with
  | EmptyString => true
  | String c r => PyStr.is_digit c && all_digits r
  end.

Definition starts_with_digit (s : string) : bool :=
  match s with
  | EmptyString => false
  | String c _ => PyStr.is_digit c
  end.

(** The lines [main] prints without [--generate-tree], for the data it
    saves. *)
Definition aggregate_lines (args : Args) (data : odict Q) : list string :=
  List.app
    ["Fetching data from " ++ arg_remote args ++ "...";
     "Analyzing directory structure at depth " ++ str_of_Z (arg_depth args)
       ++ "...";
     newline ++ "Directory sizes (" ++ arg_unit args ++ "):"]
    (map report_line data).

(** The finite values of binary64, the floats of Python: [m * 2^e] with
    [|m| < 2^53] and [-1074 <= e <= 971]. *)
Definition binary64_exact (q : Q) : Prop :=
  exists m e : Z,
    Z.abs m < 2 ^ 53 /\ -1074 <= e <= 971
    /\ (q == inject_Z m * Qpower 2 e)%Q.

(** ** The recursion limit *)

(** The outcome of code that the interpreter's recursion limit can stop:
    what the code does within the limit, or [RecursionError]. *)
Inductive limited (A : Type) : Type :=
| Within (r : A)
| RecursionError.

Arguments Within {A} r.
Arguments RecursionError {A}.

(** [clean_node] (lines 99-108) when the interpreter allows [frames] more
    nested calls: a call of [clean_node] takes one of them, and the call of
    line 103 is made from inside it.  Nothing else that [clean_node] calls
    is a Python function. *)
Fixpoint clean_node_within (frames : nat) (node : pyval)
  : limited (result pyval) :=
  match frames with
  | O => RecursionError
  | S frames =>
      match node with
      | PDict items =>
          (fix loop (l : list (string * pyval)) (cleaned : odict pyval)
             : limited (result pyval) :=
             match l with
             | [] => Within (Ok (PDict cleaned))
             | (k, v) :: rest =>
                 match v with
                 | PDict vitems =>
                     match dict_get "_children" vitems with
                     | Some c =>
                         match clean_node_within frames c with
                         | RecursionError => RecursionError
                         | Within (Raise e) => Within (Raise e)
                         | Within (Ok sub) =>
                             match (size <- dict_item "_size" vitems ;;
                                    sub <- py_setitem sub "_size" size ;;
                                    isdir <- dict_item "_isdir" vitems ;;
                                    py_setitem sub "_isdir" isdir) with
                             | Ok sub => loop rest (dict_set k sub cleaned)
                             | Raise e => Within (Raise e)
                             end
                         end
                     | None => loop rest (dict_set k v cleaned)
                     end
                 | _ => loop rest (dict_set k v cleaned)
                 end
             end) items []
      | _ => Within (Raise AttributeError)
      end
  end.

(** [build_tree_structure] when its body may nest [frames] calls. *)
Definition build_tree_structure_within (frames : nat) (entries : list Entry)
  : limited (result pyval) :=
  match raw_tree node_literal entries with
  | Ok tree => clean_node_within frames tree
  | Raise e => Within (Raise e)
  end.

(** The loop of [clean_node_within], for the proofs. *)
Fixpoint clean_items_within (frames : nat) (l : odict pyval)
         (cleaned : odict pyval) : limited (result pyval) :=
  match l with
  | [] => Within (Ok (PDict cleaned))
  | (k, v) :: rest =>
      match v with
      | PDict vitems =>
          match dict_get "_children" vitems with
          | Some c =>
              match clean_node_within frames c with
              | RecursionError => RecursionError
              | Within (Raise e) => Within (Raise e)
              | Within (Ok sub) =>
                  match (size <- dict_item "_size" vitems ;;
                         sub <- py_setitem sub "_size" size ;;
                         isdir <- dict_item "_isdir" vitems ;;
                         py_setitem sub "_isdir" isdir) with
                  | Ok sub => clean_items_within frames rest
                                                 (dict_set k sub cleaned)
                  | Raise e => Within (Raise e)
                  end
              end
          | None => clean_items_within frames rest (dict_set k v cleaned)
          end
      | _ => clean_items_within frames rest (dict_set k v cleaned)
      end
  end.

(** The number of names on the longest path of the listing. *)
Definition path_levels (entries : list Entry) : nat :=
  list_max (map (fun e => List.length (segments e)) entries).

(** * Properties *)

(** ** Dictionaries *)

Section DictFacts.
Context {V : Type}.
Implicit Types (d : odict V) (k : string) (v : V).

Lemma dict_get_set_eq k v d : dict_get k (dict_set k v d) = Some v.
Proof.
  induction d as [|[k' v'] d IH]; simpl.
  - now rewrite String.eqb_refl.
  - destruct (String.eqb k' k) eqn:E; simpl; rewrite E; auto.
Qed.

Lemma dict_get_set_neq k k' v d :
  k <> k' -> dict_get k' (dict_set k v d) = dict_get k' d.
Proof.
  intros Hne. induction d as [|[k0 v0] d IH]; simpl.
  - destruct (String.eqb k k') eqn:E; auto.
    apply String.eqb_eq in E. contradiction.
  - destruct (String.eqb k0 k) eqn:E; simpl.
    + apply String.eqb_eq in E. subst k0.
      destruct (String.eqb k k') eqn:E'; auto.
      apply String.eqb_eq in E'. contradiction.
    + now rewrite IH.
Qed.

Lemma dict_get_set k k' v d :
  dict_get k' (dict_set k v d)
  = if String.eqb k k' then Some v else dict_get k' d.
Proof.
  destruct (String.eqb k k') eqn:E.
  - apply String.eqb_eq in E. subst. apply dict_get_set_eq.
  - apply String.eqb_neq in E. now apply dict_get_set_neq.
Qed.

Lemma dict_get_In k v d : dict_get k d = Some v -> In (k, v) d.
Proof.
  induction d as [|[k' v'] d IH]; simpl; [discriminate|].
  destruct (String.eqb k' k) eqn:E.
  - apply String.eqb_eq in E. intros [= ->]. subst. now left.
  - intros H. right. auto.
Qed.

Lemma dict_get_None k d : dict_get k d = None <-> ~ In k (keys d).
Proof.
  induction d as [|[k' v'] d IH]; simpl.
  - tauto.
  - destruct (String.eqb k' k) eqn:E.
    + apply String.eqb_eq in E. subst. split; [discriminate|tauto].
    + apply String.eqb_neq in E. rewrite IH. tauto.
Qed.

Lemma dict_get_Some_key k v d : dict_get k d = Some v -> In k (keys d).
Proof.
  intros H. apply dict_get_In in H.
  change k with (fst (k, v)). now apply in_map.
Qed.

Lemma keys_dict_set k v d :
  keys (dict_set k v d)
  = if dict_mem k d then keys d else (keys d ++ [k])%list.
Proof.
  unfold dict_mem. induction d as [|[k' v'] d IH]; simpl; auto.
  destruct (String.eqb k' k) eqn:E; simpl; auto.
  rewrite IH. now destruct (dict_get k d).
Qed.
End DictFacts.

(** ** Depth aggregator *)

Lemma sumZ_app l1 l2 : sumZ (l1 ++ l2) = sumZ l1 + sumZ l2.
Proof. induction l1; simpl; lia. Qed.

Lemma sumZ_values_set (k : string) (v : Z) (d : odict Z) :
  sumZ (values (dict_set k v d))
  = sumZ (values d) + v - match dict_get k d with Some old => old | None => 0 end.
Proof.
  induction d as [|[k' v'] d IH]; simpl.
  - lia.
  - destruct (String.eqb k' k); simpl; lia.
Qed.

(** What one turn of the loop does to the binding of a key and to the sum
    of the values. *)
Lemma group_step_ok depth grouped file :
  exists grouped',
    group_step depth grouped file = Ok grouped'
    /\ (forall key,
           dict_get key grouped'
           = if negb (IsDir file) && String.eqb (dir_path depth file) key
             then Some (match dict_get key grouped with
                        | Some old => old
                        | None => 0
                        end + Size file)
             else dict_get key grouped)
    /\ sumZ (values grouped')
       = sumZ (values grouped) + (if IsDir file then 0 else Size file).
Proof.
  unfold group_step. destruct (IsDir file); simpl.
  - exists grouped. split; [reflexivity|]. split; [reflexivity|lia].
  - set (k := dir_path depth file).
    unfold dict_mem, dict_item.
    destruct (dict_get k grouped) as [old|] eqn:G; simpl.
    + rewrite G. simpl. eexists. split; [reflexivity|]. split.
      * intros key. rewrite dict_get_set.
        destruct (String.eqb k key) eqn:E; auto.
        apply String.eqb_eq in E. subst key. now rewrite G.
      * rewrite sumZ_values_set, G. lia.
    + rewrite dict_get_set_eq. simpl. eexists. split; [reflexivity|]. split.
      * intros key. rewrite !dict_get_set.
        destruct (String.eqb k key) eqn:E; auto.
        apply String.eqb_eq in E. subst key. now rewrite G.
      * rewrite !sumZ_values_set, dict_get_set_eq, G. simpl. lia.
Qed.

Lemma group_loop_ok depth files : forall grouped,
  exists grouped',
    group_loop depth files grouped = Ok grouped'
    /\ (forall key,
           dict_get key grouped'
           = let mine := filter (fun f => negb (IsDir f)
                                          && String.eqb (dir_path depth f) key)
                                files in
             match mine, dict_get key grouped with
             | [], old => old
             | _, Some old => Some (old + sumZ (map Size mine))
             | _, None => Some (sumZ (map Size mine))
             end)
    /\ sumZ (values grouped')
       = sumZ (values grouped) + sumZ (map Size (filter is_file files)).
Proof.
  induction files as [|file files IH]; intros grouped; simpl.
  - exists grouped. split; [reflexivity|]. split.
    + intros key. now destruct (dict_get key grouped).
    + lia.
  - destruct (group_step_ok depth grouped file) as (g1 & -> & Hget & Hsum).
    simpl. destruct (IH g1) as (g2 & -> & Hget2 & Hsum2).
    exists g2. split; [reflexivity|]. split.
    + intros key. rewrite Hget2. cbv zeta. rewrite Hget.
      destruct (negb (IsDir file) && String.eqb (dir_path depth file) key);
        simpl; auto.
      generalize (filter (fun f => negb (IsDir f)
                                    && String.eqb (dir_path depth f) key) files).
      intros [|f0 fs]; simpl; destruct (dict_get key grouped); f_equal; lia.
    + rewrite Hsum2, Hsum. unfold is_file at 2.
      destruct (IsDir file); simpl; lia.
Qed.

Lemma group_key_dir_path depth file :
  0 <= depth -> group_key depth file = dir_path depth file.
Proof.
  intros H. unfold group_key, dir_path.
  destruct (Z.eqb_spec depth 0) as [->|Hne]; [reflexivity|].
  destruct (Z.ltb_spec 0 depth); [reflexivity|lia].
Qed.

Lemma filter_ext_in_group depth key files :
  0 <= depth ->
  filter (fun f => negb (IsDir f) && String.eqb (dir_path depth f) key) files
  = filter (in_group depth key) files.
Proof.
  intros H. apply filter_ext. intros f. unfold in_group.
  now rewrite group_key_dir_path.
Qed.

(** C5: the aggregator binds a key exactly when some file (not a directory)
    of the listing has it as group key -- the first [depth] segments of its
    path rejoined with [/], or its full path at depth 0 -- and binds it to
    the sum of the sizes of those files. *)
Theorem group_by_depth_and_sum_size_spec (files : list Entry) (depth : Z) :
  0 <= depth ->
  exists grouped,
    group_by_depth_and_sum_size files depth = Ok grouped
    /\ forall key,
         dict_get key grouped
         = match filter (in_group depth key) files with
           | [] => None
           | mine => Some (sumZ (map Size mine))
           end.
Proof.
  intros Hd. unfold group_by_depth_and_sum_size.
  destruct (group_loop_ok depth files []) as (g & Hg & Hget & _).
  exists g. split; [exact Hg|]. intros key.
  rewrite Hget. cbv zeta. rewrite filter_ext_in_group by assumption.
  now destruct (filter _ files).
Qed.

Lemma group_by_depth_and_sum_size_spec_witness :
  exists grouped,
    group_by_depth_and_sum_size
      [mkEntry "a/b/f1.txt" false 100; mkEntry "a/b" true 0;
       mkEntry "a/c/f2.txt" false 50] 1 = Ok grouped
    /\ forall key,
         dict_get key grouped
         = match filter (in_group 1 key)
                   [mkEntry "a/b/f1.txt" false 100; mkEntry "a/b" true 0;
                    mkEntry "a/c/f2.txt" false 50] with
           | [] => None
           | mine => Some (sumZ (map Size mine))
           end.
Proof. apply group_by_depth_and_sum_size_spec. lia. Defined.

(** The scenario of the specification. *)
Example group_scenario :
  let entries := [mkEntry "a/b/f1.txt" false 100; mkEntry "a/b" true 0;
                  mkEntry "a/c/f2.txt" false 50] in
  group_by_depth_and_sum_size entries 1 = Ok [("a", 150)]
  /\ group_by_depth_and_sum_size entries 2 = Ok [("a/b", 100); ("a/c", 50)]
  /\ group_by_depth_and_sum_size entries 0
     = Ok [("a/b/f1.txt", 100); ("a/c/f2.txt", 50)].
Proof. repeat split. Qed.

(** C4: at every depth from 1 on, the group sizes add up to the sizes of the
    files of the listing. *)
Theorem group_sizes_conserved (files : list Entry) (depth : Z) :
  1 <= depth ->
  exists grouped,
    group_by_depth_and_sum_size files depth = Ok grouped
    /\ sumZ (values grouped) = sumZ (map Size (filter is_file files)).
Proof.
  intros _. unfold group_by_depth_and_sum_size.
  destruct (group_loop_ok depth files []) as (g & Hg & _ & Hsum).
  exists g. split; [exact Hg|]. rewrite Hsum. reflexivity.
Qed.

Lemma group_sizes_conserved_witness :
  exists grouped,
    group_by_depth_and_sum_size
      [mkEntry "a/b/f1.txt" false 100; mkEntry "a/b" true 7;
       mkEntry "top.txt" false 50] 2 = Ok grouped
    /\ sumZ (values grouped)
       = sumZ (map Size (filter is_file
                 [mkEntry "a/b/f1.txt" false 100; mkEntry "a/b" true 7;
                  mkEntry "top.txt" false 50])).
Proof. apply group_sizes_conserved. lia. Defined.

(** ** Unit conversion *)

Lemma lower_char_idem c :
  PyStr.lower_char (PyStr.lower_char c) = PyStr.lower_char c.
Proof. destruct c as [[] [] [] [] [] [] [] []]; reflexivity. Qed.

Lemma lower_idem s : PyStr.lower (PyStr.lower s) = PyStr.lower s.
Proof.
  induction s as [|c s IH]; simpl; [reflexivity|].
  now rewrite lower_char_idem, IH.
Qed.

Lemma unit_divisor_cases unit :
  unit_divisor unit
  = if String.eqb (PyStr.lower unit) "kb" then 1024
    else if String.eqb (PyStr.lower unit) "mb" then 1024 ^ 2
    else if String.eqb (PyStr.lower unit) "gb" then 1024 ^ 3
    else 1.
Proof.
  unfold unit_divisor, units. cbn [dict_get].
  rewrite (String.eqb_sym "kb"), (String.eqb_sym "mb"), (String.eqb_sym "gb").
  destruct (String.eqb (PyStr.lower unit) "kb"); [reflexivity|].
  destruct (String.eqb (PyStr.lower unit) "mb"); [reflexivity|].
  now destruct (String.eqb (PyStr.lower unit) "gb").
Qed.

(** C7: the divisor is 1024, 1024^2 and 1024^3 for kb, mb and gb and 1 for
    bytes and for every unit that, lowercased, is none of the three; the
    conversion is that division, defined for every unit string (the divisor
    is never zero); 2048 bytes in the unit foo are reported as 2048.00. *)
Theorem convert_size_divisors :
  unit_divisor "kb" = 1024
  /\ unit_divisor "mb" = 1024 ^ 2
  /\ unit_divisor "gb" = 1024 ^ 3
  /\ unit_divisor "bytes" = 1
  /\ (forall unit,
         PyStr.lower unit <> "kb" -> PyStr.lower unit <> "mb" ->
         PyStr.lower unit <> "gb" -> unit_divisor unit = 1)
  /\ (forall size_bytes unit,
         0 < unit_divisor unit
         /\ convert_size size_bytes unit
            = (inject_Z size_bytes / inject_Z (unit_divisor unit))%Q)
  /\ convert_size 2048 "foo" = (2048 # 1)%Q
  /\ format_2f (convert_size 2048 "foo") = "2048.00".
Proof.
  repeat split; try reflexivity.
  - intros unit Hk Hm Hg. rewrite unit_divisor_cases.
    apply String.eqb_neq in Hk, Hm, Hg. now rewrite Hk, Hm, Hg.
  - rewrite unit_divisor_cases.
    destruct (String.eqb _ "kb"); [reflexivity|].
    destruct (String.eqb _ "mb"); [reflexivity|].
    destruct (String.eqb _ "gb"); reflexivity.
Qed.

Lemma convert_size_divisors_witness :
  unit_divisor "Furlongs" = 1.
Proof.
  apply (proj1 (proj2 (proj2 (proj2 (proj2 convert_size_divisors)))));
    simpl; discriminate.
Defined.

(** C10: the unit is read without regard to case. *)
Theorem convert_size_case_insensitive (size_bytes : Z) (unit : string) :
  convert_size size_bytes unit = convert_size size_bytes (PyStr.lower unit).
Proof.
  unfold convert_size, unit_divisor. now rewrite lower_idem.
Qed.

Example convert_size_kb_spellings :
  convert_size 4096 "KB" = convert_size 4096 "kb"
  /\ convert_size 4096 "Kb" = convert_size 4096 "kb"
  /\ convert_size 4096 "kb" = (4096 # 1024)%Q.
Proof. repeat split. Qed.

(** ** Rendering from the persisted report *)

(** C8: with a report that has no [files] key, rendering raises the
    [ValueError] with its message and the files are left as they were:
    [treelist.html] is neither opened nor written. *)
Theorem generate_html_missing_files
        (json_load : string -> result (odict json_value))
        (format_template : string -> string -> result string)
        (json_file : string) (fs : file_system)
        (template text : string) (json_data : odict json_value) :
  fs "template.html" = Some template ->
  fs json_file = Some text ->
  json_load text = Ok json_data ->
  dict_get "files" json_data = None ->
  generate_html_from_json json_load format_template json_file fs
  = (Raise (ValueError "JSON missing 'files' key. Use --generate-tree flag."),
     fs).
Proof.
  intros Ht Hj Hl Hk. unfold generate_html_from_json, read_file.
  rewrite Ht, Hj. simpl. rewrite Hl. unfold dict_mem. rewrite Hk.
  reflexivity.
Qed.

Lemma generate_html_missing_files_witness :
  let fs := write_file "template.html" "<html>{tree_structure}</html>"
              (write_file "output.json" "{}" (fun _ => None)) in
  generate_html_from_json
    (fun _ => Ok [("remote", JString "r"); ("unit", JString "kb");
                  ("directories", JSizes [])])
    (fun template tree => Ok (template ++ tree)) "output.json" fs
  = (Raise (ValueError "JSON missing 'files' key. Use --generate-tree flag."),
     fs).
Proof.
  apply (generate_html_missing_files _ _ "output.json" _
           "<html>{tree_structure}</html>" "{}"
           [("remote", JString "r"); ("unit", JString "kb");
            ("directories", JSizes [])]); reflexivity.
Defined.

(** ** Stable sort *)

Section SortFacts.
Context {A K : Type}.
Variable ltb : K -> K -> bool.
Variable key : A -> K.

Local Abbreviation le := (not_after ltb key).

Hypothesis ltb_asym : forall a b, ltb a b = true -> ltb b a = false.
Hypothesis le_trans : forall x y z, le x y -> le y z -> le x z.

Lemma insert_by_perm x l : Permutation (insert_by ltb key x l) (x :: l).
Proof.
  induction l as [|y l IH]; simpl; [reflexivity|].
  destruct (ltb (key y) (key x)); [|reflexivity].
  rewrite IH. apply perm_swap.
Qed.

Lemma sort_by_perm l : Permutation (sort_by ltb key l) l.
Proof.
  induction l as [|x l IH]; simpl; [reflexivity|].
  rewrite insert_by_perm. now apply perm_skip.
Qed.

Lemma insert_by_sorted x l :
  StronglySorted le l -> StronglySorted le (insert_by ltb key x l).
Proof.
  induction 1 as [|y l Hs IH Hall]; simpl.
  - repeat constructor.
  - destruct (ltb (key y) (key x)) eqn:E.
    + constructor; [exact IH|].
      rewrite Forall_forall. intros z Hz.
      apply (Permutation_in _ (insert_by_perm x l)) in Hz.
      destruct Hz as [<-|Hz].
      * now apply ltb_asym.
      * rewrite Forall_forall in Hall. auto.
    + constructor; [now constructor|].
      constructor; [exact E|].
      rewrite Forall_forall in *. intros z Hz.
      apply le_trans with y; auto.
Qed.

Lemma sort_by_sorted l : StronglySorted le (sort_by ltb key l).
Proof.
  induction l as [|x l IH]; simpl; [constructor|].
  now apply insert_by_sorted.
Qed.
End SortFacts.

Lemma number_ltb_asym a b : number_ltb a b = true -> number_ltb b a = false.
Proof. destruct a, b; simpl; try easy. lia. Qed.

Lemma number_ltb_leb a b : number_ltb b a = false <-> number_leb a b = true.
Proof. destruct a, b; simpl; try easy. lia. Qed.

Lemma number_leb_trans a b c :
  number_leb a b = true -> number_leb b c = true -> number_leb a c = true.
Proof. destruct a, b, c; simpl; try easy. lia. Qed.

Lemma string_ltb_asym a b : String.ltb a b = true -> String.ltb b a = false.
Proof.
  unfold String.ltb. rewrite (String.compare_antisym a b).
  now destruct (String.compare b a).
Qed.

Lemma string_ltb_leb a b : String.ltb b a = false <-> String.leb a b = true.
Proof.
  unfold String.ltb, String.leb. rewrite (String.compare_antisym a b).
  destruct (String.compare b a); simpl; easy.
Qed.

Lemma string_leb_trans a b c :
  String.leb a b = true -> String.leb b c = true -> String.leb a c = true.
Proof.
  unfold String.leb. intros Hab Hbc.
  destruct (String.compare a b) eqn:Eab; try discriminate;
    destruct (String.compare b c) eqn:Ebc; try discriminate.
  - apply String.compare_eq_iff in Eab, Ebc. subst.
    pose proof (proj2 (OrderedTypeEx.String_as_OT.cmp_eq c c) eq_refl) as H.
    unfold OrderedTypeEx.String_as_OT.cmp in H. now rewrite H.
  - apply String.compare_eq_iff in Eab. subst. now rewrite Ebc.
  - apply String.compare_eq_iff in Ebc. subst. now rewrite Eab.
  - apply OrderedTypeEx.String_as_OT.cmp_lt in Eab, Ebc.
    pose proof (OrderedTypeEx.String_as_OT.lt_trans _ _ _ Eab Ebc) as H.
    apply OrderedTypeEx.String_as_OT.cmp_lt in H.
    unfold OrderedTypeEx.String_as_OT.cmp in H. now rewrite H.
Qed.

(** ** Tree renderer *)

Lemma pyval_induction (P : pyval -> Prop) :
  (forall z, P (PInt z)) ->
  (forall b, P (PBool b)) ->
  (forall items, Forall (fun kv => P (snd kv)) items -> P (PDict items)) ->
  forall v, P v.
Proof.
  intros HI HB HD. fix IH 1. intros [z|b|items].
  - apply HI.
  - apply HB.
  - apply HD. induction items as [|[k v] r IHr].
    + constructor.
    + constructor; [apply IH|exact IHr].
Qed.

Lemma string_app_assoc (a b c : string) : ((a ++ b) ++ c = a ++ (b ++ c))%string.
Proof. induction a as [|x a IH]; simpl; [reflexivity|now rewrite IH]. Qed.

Lemma generate_tree_html_eq items current_depth :
  generate_tree_html (PDict items) current_depth
  = let (dirs, files) := split_items (rendered items current_depth) in
    html <- emit_dirs (sort_dirs current_depth dirs) "<ul>" ;;
    Ok (emit_files (sort_files files) html ++ "</ul>")%string.
Proof.
  simpl.
  match goal with
  | |- context [split_items (?f items)] =>
      assert (E : forall l, f l = rendered l current_depth)
        by (induction l as [|[k v] l IHl]; simpl; [|rewrite IHl]; reflexivity)
  end.
  rewrite E. reflexivity.
Qed.

Lemma split_items_filter (its : list item) :
  split_items its
  = (filter (fun it => negb (reserved (item_name it))
                       && is_dir_value (item_value it)) its,
     filter (fun it => negb (reserved (item_name it))
                       && negb (is_dir_value (item_value it))) its).
Proof.
  induction its as [|it its IH]; simpl; [reflexivity|].
  rewrite IH. destruct (reserved (item_name it)); simpl; [reflexivity|].
  now destruct (is_dir_value (item_value it)).
Qed.

Lemma filter_rendered (p : string * pyval -> bool) items d :
  filter (fun it => p (fst it)) (rendered items d)
  = rendered (filter p items) d.
Proof.
  unfold rendered. induction items as [|[k v] items IH]; simpl; [reflexivity|].
  destruct (p (k, v)); simpl; now rewrite IH.
Qed.

Lemma split_items_rendered items d :
  split_items (rendered items d)
  = (rendered (dir_children items) d, rendered (file_children items) d).
Proof.
  rewrite split_items_filter. unfold dir_children, file_children.
  now rewrite <- !filter_rendered.
Qed.

Lemma map_fst_rendered items d : map fst (rendered items d) = items.
Proof.
  unfold rendered. rewrite map_map. simpl.
  induction items as [|[k v] items IH]; simpl; [reflexivity|now rewrite IH].
Qed.

Lemma emit_dirs_ok (dirs : list item) : forall html,
  Forall (fun it => exists s, item_html it = Ok s) dirs ->
  emit_dirs dirs html
  = Ok (html ++ concat_all
                  (map (fun it => folder_li (item_name it)
                                            (html_or_empty (item_html it)))
                       dirs))%string.
Proof.
  induction dirs as [|it dirs IH]; intros html Hall; simpl.
  - f_equal. induction html; simpl; congruence.
  - inversion Hall as [|? ? [s Hs] Hrest]; subst.
    rewrite Hs. simpl. rewrite IH by assumption.
    now rewrite string_app_assoc.
Qed.

Lemma emit_files_eq (files : list item) : forall html,
  emit_files files html
  = (html ++ concat_all (map (fun it => file_li (item_name it)) files))%string.
Proof.
  induction files as [|it files IH]; intros html; simpl.
  - induction html; simpl; congruence.
  - rewrite IH. now rewrite string_app_assoc.
Qed.

Lemma StronglySorted_map {A B : Type} (f : A -> B) (R : B -> B -> Prop) l :
  StronglySorted (fun x y => R (f x) (f y)) l -> StronglySorted R (map f l).
Proof.
  induction 1 as [|x l Hs IH Hall]; simpl; constructor; auto.
  rewrite Forall_forall in *. intros y Hy.
  apply in_map_iff in Hy. destruct Hy as (z & <- & Hz). auto.
Qed.

Lemma StronglySorted_impl {A : Type} (R S : A -> A -> Prop) l :
  (forall x y, R x y -> S x y) -> StronglySorted R l -> StronglySorted S l.
Proof.
  intros HRS. induction 1 as [|x l Hs IH Hall]; constructor; auto.
  eapply Forall_impl; [|exact Hall]. auto.
Qed.

Lemma sorted_by_lower (l : list item) :
  StronglySorted by_lower_name (map fst (sort_by String.ltb lower_name l)).
Proof.
  apply StronglySorted_map.
  eapply StronglySorted_impl;
    [|apply (sort_by_sorted String.ltb lower_name string_ltb_asym)].
  - intros x y H. unfold by_lower_name. now apply string_ltb_leb.
  - intros x y z Hxy Hyz. apply string_ltb_leb in Hxy, Hyz.
    apply string_ltb_leb. eapply string_leb_trans; eassumption.
Qed.

Lemma sorted_by_number (l : list item) :
  StronglySorted by_number (map fst (sort_by number_ltb number_of l)).
Proof.
  apply StronglySorted_map.
  eapply StronglySorted_impl;
    [|apply (sort_by_sorted number_ltb number_of number_ltb_asym)].
  - intros x y H. unfold by_number. now apply number_ltb_leb.
  - intros x y z Hxy Hyz. apply number_ltb_leb in Hxy, Hyz.
    apply number_ltb_leb. eapply number_leb_trans; eassumption.
Qed.

Lemma sort_dirs_perm d l : Permutation (sort_dirs d l) l.
Proof. unfold sort_dirs. destruct (d =? 1); apply sort_by_perm. Qed.

Lemma is_dir_value_dict v : is_dir_value v = true -> is_dict v = true.
Proof. now destruct v. Qed.

(** The renderer returns on every dictionary. *)
Lemma generate_tree_html_total v :
  is_dict v = true -> forall d, exists html, generate_tree_html v d = Ok html.
Proof.
  induction v as [z|b|items IH] using pyval_induction; try discriminate.
  intros _ d. rewrite generate_tree_html_eq, split_items_rendered.
  rewrite emit_dirs_ok.
  - simpl. eauto.
  - rewrite Forall_forall. intros it Hit.
    apply (Permutation_in _ (sort_dirs_perm _ _)) in Hit.
    unfold rendered in Hit. apply in_map_iff in Hit.
    destruct Hit as ([k v] & <- & Hkv). unfold item_html. simpl.
    unfold dir_children in Hkv. apply filter_In in Hkv.
    destruct Hkv as [Hin Hp]. simpl in Hp.
    apply andb_true_iff in Hp. destruct Hp as [_ Hp].
    rewrite Forall_forall in IH. apply (IH _ Hin).
    now apply is_dir_value_dict.
Qed.

Lemma int_of_digits_decimal name : forall acc,
  int_of_digits acc (leading_digits name)
  = acc * 10 ^ Z.of_nat (List.length (digit_values name))
    + decimal_value (digit_values name).
Proof.
  induction name as [|c r IH]; intros acc; cbn [leading_digits digit_values].
  - cbn. lia.
  - destruct (PyStr.is_digit c); [|cbn; lia].
    cbn [int_of_digits decimal_value List.length]. rewrite IH.
    rewrite Nat2Z.inj_succ, Z.pow_succ_r by lia. ring.
Qed.

(** [extract_number] computes the key of the specification. *)
Lemma extract_number_leading_number name :
  extract_number name
  = match leading_number name with Some n => Int n | None => Inf end.
Proof.
  unfold extract_number, leading_number.
  pose proof (int_of_digits_decimal name 0) as H.
  destruct name as [|c r]; [reflexivity|].
  cbn [leading_digits digit_values] in *.
  destruct (PyStr.is_digit c); [|reflexivity].
  rewrite H. f_equal.
Qed.

Lemma by_number_leading a b : by_number a b -> by_leading_number a b.
Proof.
  unfold by_number, by_leading_number, leading_number_le.
  rewrite !extract_number_leading_number.
  destruct (leading_number (fst a)), (leading_number (fst b)); cbn;
    try easy.
  apply Z.leb_le.
Qed.

(** C6: the rendering of a node is the list of its directory children
    followed by the list of its file children; at depth 1 the directories
    stand by ascending integer value of the digits their names start with,
    the names without leading digits last, and at the other depths by
    lowercased name; the files stand by lowercased name at every depth; a
    directory's item holds the rendering of its own children one level down.
    Top-level directories 10x, 2y and abc are rendered in the order 2y, 10x,
    abc. *)
Theorem generate_tree_html_order (items : odict pyval) (current_depth : Z) :
  (exists (dirs files : odict pyval) (subs : list string),
      generate_tree_html (PDict items) current_depth
      = Ok ("<ul>"
            ++ concat_all (map (fun p => folder_li (fst (fst p)) (snd p))
                               (combine dirs subs))
            ++ concat_all (map (fun f => file_li (fst f)) files)
            ++ "</ul>")%string
      /\ Permutation dirs (dir_children items)
      /\ Permutation files (file_children items)
      /\ Forall2 (fun dir sub =>
                    generate_tree_html (snd dir) (current_depth + 1) = Ok sub)
                 dirs subs
      /\ (if current_depth =? 1 then StronglySorted by_leading_number dirs
          else StronglySorted by_lower_name dirs)
      /\ StronglySorted by_lower_name files)
  /\ (tree <- build_tree_structure
                [mkEntry "10x" true 0; mkEntry "2y" true 0;
                 mkEntry "abc" true 0] ;;
      generate_tree_html tree 1)
     = Ok ("<ul>" ++ folder_li "2y" "<ul></ul>"
           ++ folder_li "10x" "<ul></ul>"
           ++ folder_li "abc" "<ul></ul>" ++ "</ul>")%string.
Proof.
  split; [|reflexivity].
  set (ds := sort_dirs current_depth
               (rendered (dir_children items) current_depth)).
  set (fs := sort_files (rendered (file_children items) current_depth)).
  assert (Hds : Forall (fun it => item_html it
                          = generate_tree_html (item_value it)
                                               (current_depth + 1)
                          /\ exists s, item_html it = Ok s) ds).
  { rewrite Forall_forall. intros it Hit.
    apply (Permutation_in _ (sort_dirs_perm _ _)) in Hit.
    unfold rendered in Hit. apply in_map_iff in Hit.
    destruct Hit as ([k v] & <- & Hkv). unfold item_html, item_value. simpl.
    split; [reflexivity|].
    apply filter_In in Hkv. destruct Hkv as [_ Hp]. simpl in Hp.
    apply andb_true_iff in Hp. destruct Hp as [_ Hp].
    apply generate_tree_html_total. now apply is_dir_value_dict. }
  exists (map fst ds), (map fst fs),
         (map (fun it => html_or_empty (item_html it)) ds).
  split; [|split; [|split; [|split; [|split]]]].
  - assert (E1 : map (fun p : string * pyval * string =>
                        folder_li (fst (fst p)) (snd p))
                     (combine (map fst ds)
                        (map (fun it => html_or_empty (item_html it)) ds))
                 = map (fun it => folder_li (item_name it)
                                            (html_or_empty (item_html it))) ds).
    { clear. induction ds as [|it ds IH]; simpl; [reflexivity|].
      now rewrite IH. }
    assert (E2 : map (fun f : string * pyval => file_li (fst f)) (map fst fs)
                 = map (fun it => file_li (item_name it)) fs)
      by now rewrite map_map.
    rewrite E1, E2, generate_tree_html_eq, split_items_rendered.
    fold ds. fold fs. rewrite emit_dirs_ok.
    + unfold bind. rewrite emit_files_eq. now rewrite !string_app_assoc.
    + eapply Forall_impl; [|exact Hds]. now intros it [_ H].
  - unfold ds.
    etransitivity; [apply Permutation_map, sort_dirs_perm|].
    now rewrite map_fst_rendered.
  - unfold fs, sort_files.
    etransitivity; [apply Permutation_map, sort_by_perm|].
    now rewrite map_fst_rendered.
  - clear -Hds. induction Hds as [|it ds [Heq [s Hs]] _ IH]; simpl;
      constructor; auto.
    unfold item_value in Heq. rewrite <- Heq, Hs. reflexivity.
  - unfold ds, sort_dirs. destruct (current_depth =? 1).
    + eapply StronglySorted_impl; [|apply sorted_by_number].
      apply by_number_leading.
    + apply sorted_by_lower.
  - apply sorted_by_lower.
Qed.

(** The scenario of the specification: top-level directories 10x, 2y and
    abc are rendered in the order 2y, 10x, abc. *)
Example generate_tree_html_scenario :
  (tree <- build_tree_structure
             [mkEntry "10x" true 0; mkEntry "2y" true 0; mkEntry "abc" true 0] ;;
   generate_tree_html tree 1)
  = Ok ("<ul>" ++ folder_li "2y" "<ul></ul>" ++ folder_li "10x" "<ul></ul>"
        ++ folder_li "abc" "<ul></ul>" ++ "</ul>")%string.
Proof. reflexivity. Qed.

(** ** Paths *)

Lemma split_not_nil c s : PyStr.split c s <> [].
Proof.
  destruct s as [|a r]; simpl; [discriminate|].
  destruct (Ascii.eqb a c); [discriminate|].
  destruct (PyStr.split c r); discriminate.
Qed.

Lemma last_char_cons a b r :
  last_char (String a (String b r)) = last_char (String b r).
Proof. simpl. now destruct (last_char r). Qed.

Lemma rstrip_last_char c s : last_char (PyStr.rstrip c s) <> Some c.
Proof.
  induction s as [|a r IH]; simpl; [discriminate|].
  destruct (PyStr.rstrip c r) as [|b r'] eqn:E.
  - destruct (Ascii.eqb_spec a c) as [->|Hne]; simpl; [discriminate|].
    congruence.
  - rewrite last_char_cons. exact IH.
Qed.

Lemma split_last c s :
  s <> EmptyString -> last_char s <> Some c ->
  last (PyStr.split c s) EmptyString <> EmptyString.
Proof.
  induction s as [|a r IH]; intros Hs Hl; [congruence|].
  destruct r as [|b r'].
  - simpl in *. destruct (Ascii.eqb_spec a c) as [->|Hne]; [congruence|].
    simpl. discriminate.
  - rewrite last_char_cons in Hl.
    remember (String b r') as s' eqn:Es.
    assert (IH' : last (PyStr.split c s') EmptyString <> EmptyString)
      by (apply IH; [subst; discriminate|exact Hl]).
    pose proof (split_not_nil c s') as Hn.
    simpl. destruct (PyStr.split c s') as [|h t]; [congruence|].
    destruct (Ascii.eqb a c).
    + exact IH'.
    + destruct t as [|h' t']; [discriminate|exact IH'].
Qed.

(** The last of the parts of an entry is never empty, so the test of line 82
    holds exactly at the last part the loop does not skip. *)
Lemma parts_of_last entry :
  parts_of entry = []
  \/ last (parts_of entry) EmptyString <> EmptyString.
Proof.
  unfold parts_of.
  destruct (String.eqb_spec (PyStr.rstrip "/" (Path entry)) EmptyString)
    as [E|E]; [now left|right].
  apply split_last; [exact E|apply rstrip_last_char].
Qed.

(** ** The tree under construction *)

Section TreeFacts.
Variable ok : string -> bool.

Lemma wf_tree_get t k v :
  wf_tree ok t -> dict_get k t = Some v ->
  exists s cs b, v = mk_node s cs b /\ wf_tree ok cs.
Proof.
  induction 1 as [|k' s cs b rest Hok Hk Hcs _ Hrest IH]; simpl;
    [discriminate|].
  destruct (String.eqb k' k); [|exact IH].
  intros [= <-]. eauto.
Qed.

Lemma wf_tree_keys t : wf_tree ok t -> NoDup (keys t).
Proof. induction 1; simpl; constructor; auto. Qed.

Lemma wf_tree_ok t k : wf_tree ok t -> In k (keys t) -> ok k = true.
Proof.
  induction 1 as [|k' s cs b rest Hok Hk Hcs _ Hrest IH]; simpl;
    [tauto|].
  intros [<-|H]; auto.
Qed.

Lemma wf_tree_set t k s cs b :
  wf_tree ok t -> wf_tree ok cs -> ok k = true ->
  wf_tree ok (dict_set k (mk_node s cs b) t).
Proof.
  intros Ht Hcs Hok.
  induction Ht as [|k' s' cs' b' rest Hok' Hk' Hcs' _ Hrest IH]; simpl.
  - constructor; auto. constructor.
  - destruct (String.eqb_spec k' k) as [->|Hne].
    + constructor; auto.
    + constructor; auto.
      rewrite keys_dict_set. destruct (dict_mem k rest); auto.
      rewrite in_app_iff. simpl. intuition congruence.
Qed.

Lemma wf_insert_path is_dir size segs : forall t,
  wf_tree ok t -> Forall (fun k => ok k = true) segs ->
  wf_tree ok (insert_path is_dir size segs t).
Proof.
  induction segs as [|k rest IH]; intros t Ht Hsegs; simpl; [exact Ht|].
  inversion Hsegs as [|? ? Hk Hrest]; subst.
  assert (Hcs : wf_tree ok
                  (node_children (child_or_new t k))).
  { unfold child_or_new. destruct (dict_get k t) as [v|] eqn:G.
    - destruct (wf_tree_get _ _ _ Ht G) as (s & cs & b & -> & Hcs).
      exact Hcs.
    - constructor. }
  destruct rest as [|k' rest'].
  - destruct is_dir; apply wf_tree_set; auto.
  - apply wf_tree_set; auto.
Qed.
End TreeFacts.

Lemma wf_tree_weaken ok t : wf_tree ok t -> wf_tree any_key t.
Proof. induction 1; constructor; auto. Qed.

Lemma dict_set_twice {V : Type} k (v v' : V) d :
  dict_set k v (dict_set k v' d) = dict_set k v d.
Proof.
  induction d as [|[k0 v0] d IH]; simpl.
  - now rewrite String.eqb_refl.
  - destruct (String.eqb k0 k) eqn:E; simpl; rewrite E; [reflexivity|].
    now rewrite IH.
Qed.

Lemma filter_nonempty_last parts :
  parts <> [] -> last parts EmptyString <> EmptyString ->
  filter nonempty parts <> [].
Proof.
  induction parts as [|x parts IH]; intros Hn Hl; [congruence|].
  simpl. destruct parts as [|y parts'].
  - simpl in Hl. unfold nonempty.
    destruct (String.eqb_spec x EmptyString); [congruence|discriminate].
  - destruct (nonempty x); [discriminate|].
    apply IH; [discriminate|exact Hl].
Qed.

Lemma iadd_size_node s cs b z :
  py_iadd_item (mk_node s cs b) "_size" z = Ok (mk_node (s + z) cs b).
Proof. reflexivity. Qed.

Lemma set_isdir_node s cs b flag :
  py_setitem (mk_node s cs b) "_isdir" (PBool flag) = Ok (mk_node s cs flag).
Proof. reflexivity. Qed.

Lemma get_children_node s cs b :
  py_getitem (mk_node s cs b) "_children" = Ok (PDict cs).
Proof. reflexivity. Qed.

Lemma set_children_node s cs b cs' :
  py_setitem (mk_node s cs b) "_children" (PDict cs') = Ok (mk_node s cs' b).
Proof. reflexivity. Qed.

Lemma create_step part t :
  exists d1,
    (if negb (dict_mem part t)
     then py_setitem (PDict t) part (node_literal (PInt 0))
     else Ok (PDict t)) = Ok (PDict d1)
    /\ dict_get part d1 = Some (child_or_new t part)
    /\ forall x, dict_set part x d1 = dict_set part x t.
Proof.
  unfold dict_mem, child_or_new.
  destruct (dict_get part t) as [v|] eqn:G; simpl.
  - exists t. auto.
  - eexists. split; [reflexivity|]. split.
    + apply dict_get_set_eq.
    + intros x. apply dict_set_twice.
Qed.

(** On a tree of node dictionaries the inner loop is [insert_path] on the
    parts it does not skip, whatever the fallback. *)
Lemma walk_insert_path fallback is_dir size parts : forall n t,
  (parts = [] \/ last parts EmptyString <> EmptyString) ->
  wf_tree any_key t ->
  walk fallback is_dir size (Z.of_nat (n + List.length parts) - 1)
       (combine (seq n (List.length parts)) parts) (PDict t)
  = Ok (PDict (insert_path is_dir size (filter nonempty parts) t)).
Proof.
  induction parts as [|part rest IH]; intros n t Hlast Ht; [reflexivity|].
  destruct Hlast as [Hlast|Hlast]; [discriminate|].
  cbn [List.length seq combine walk filter].
  unfold nonempty at 1.
  destruct (String.eqb_spec part EmptyString) as [->|Hpart]; cbn [negb].
  - destruct rest as [|p' rest']; [simpl in Hlast; congruence|].
    replace (n + S (List.length (p' :: rest')))%nat
      with (S n + List.length (p' :: rest'))%nat by lia.
    apply IH; auto.
  - cbn [py_contains bind].
    destruct (create_step part t) as (d1 & -> & G1 & S1). cbn [bind].
    unfold py_getitem at 1. unfold dict_item. rewrite G1.
    cbn [insert_path].
    set (node := (child_or_new t part)).
    assert (Hnode : exists s cs b, node = mk_node s cs b /\ wf_tree any_key cs).
    { unfold node, child_or_new. destruct (dict_get part t) as [v|] eqn:G.
      - eapply wf_tree_get; eauto.
      - exists 0, [], false. split; [reflexivity|constructor]. }
    destruct Hnode as (s & cs & b & -> & Hcs). cbn [bind].
    destruct rest as [|p' rest'].
    + (* the last part *)
      match goal with
      | |- context [Z.of_nat n =? ?x] =>
          destruct (Z.eqb_spec (Z.of_nat n) x) as [E|E];
            [|exfalso; simpl in E; lia]
      end.
      cbn [filter walk].
      destruct is_dir;
        [rewrite set_isdir_node|rewrite iadd_size_node];
        cbn [bind py_setitem]; rewrite S1; reflexivity.
    + (* a part before the last *)
      match goal with
      | |- context [Z.of_nat n =? ?x] =>
          destruct (Z.eqb_spec (Z.of_nat n) x) as [E|E];
            [exfalso; simpl in E; lia|]
      end.
      assert (IH' : walk fallback is_dir size
                      (Z.of_nat (n + S (List.length (p' :: rest'))) - 1)
                      (combine (seq (S n) (List.length (p' :: rest')))
                               (p' :: rest')) (PDict cs)
                    = Ok (PDict (insert_path is_dir size
                                   (filter nonempty (p' :: rest')) cs))).
      { replace (n + S (List.length (p' :: rest')))%nat
          with (S n + List.length (p' :: rest'))%nat by (simpl; lia).
        apply IH; auto. }
      pose proof (filter_nonempty_last (p' :: rest') ltac:(discriminate) Hlast)
        as Hne.
      destruct (filter nonempty (p' :: rest')) as [|k' segs'] eqn:F;
        [congruence|].
      change (is_dict (mk_node s cs b)) with true. cbn [negb bind].
      rewrite iadd_size_node. cbn [bind].
      rewrite get_children_node. cbn [bind].
      rewrite IH'. cbn [bind].
      rewrite set_children_node. cbn [bind py_setitem].
      rewrite S1. reflexivity.
Qed.

Lemma add_entry_insert fallback t entry :
  wf_tree any_key t ->
  add_entry fallback (PDict t) entry = Ok (PDict (insert_entry t entry)).
Proof.
  intros Ht. unfold add_entry, insert_entry, segments, entry_size.
  fold (parts_of entry).
  apply (walk_insert_path fallback (IsDir entry) _ (parts_of entry) 0 t);
    [apply parts_of_last|exact Ht].
Qed.

Lemma all_any_key (segs : list string) : Forall (fun k => any_key k = true) segs.
Proof. induction segs; constructor; auto. Qed.

Lemma wf_insert_entries ok entries : forall t,
  wf_tree ok t ->
  Forall (fun e => Forall (fun k => ok k = true) (segments e)) entries ->
  wf_tree ok (insert_entries entries t).
Proof.
  induction entries as [|e entries IH]; intros t Ht Hall; simpl; [exact Ht|].
  inversion Hall; subst. apply IH; auto.
  unfold insert_entry. now apply wf_insert_path.
Qed.

Lemma all_entries_any_key entries :
  Forall (fun e => Forall (fun k => any_key k = true) (segments e)) entries.
Proof. induction entries; constructor; auto using all_any_key. Qed.

Lemma add_entries_insert fallback entries : forall t,
  wf_tree any_key t ->
  add_entries fallback entries (PDict t)
  = Ok (PDict (insert_entries entries t)).
Proof.
  induction entries as [|e entries IH]; intros t Ht; simpl; [reflexivity|].
  rewrite add_entry_insert by assumption. simpl.
  apply IH. unfold insert_entry.
  apply wf_insert_path; [exact Ht|apply all_any_key].
Qed.

(** The tree at line 98 is a tree of node dictionaries, whatever the
    fallback. *)
Lemma raw_tree_insert fallback entries :
  raw_tree fallback entries = Ok (PDict (insert_entries entries []))
  /\ wf_tree any_key (insert_entries entries []).
Proof.
  split.
  - apply add_entries_insert. constructor.
  - apply wf_insert_entries; [constructor|apply all_entries_any_key].
Qed.

Lemma wf_full_nodes ok t : wf_tree ok t -> full_nodes (PDict t).
Proof.
  induction 1 as [|k s cs b rest Hok Hk Hcs IHcs Hrest IHrest];
    constructor.
  - intros k v [].
  - intros k' v [[= <- <-]|Hin].
    + exists [("_size", PInt s); ("_children", PDict cs); ("_isdir", PBool b)],
             (PDict cs).
      split; [reflexivity|]. split; [reflexivity|]. split; [reflexivity|].
      split; [reflexivity|exact IHcs].
    + inversion IHrest as [items Hitems]; subst. eauto.
Qed.

(** C9: whatever the entries, the tree under construction holds node
    dictionaries only -- every value of every children mapping has the keys
    [_size], [_children] and [_isdir] -- after each entry, and what the
    branch of lines 88-94 would put in place of a bare value does not matter:
    with any other fallback the tree and the result are the same. *)
Theorem no_bare_nodes (fallback : pyval -> pyval) (entries : list Entry) :
  (forall n,
      exists tree,
        raw_tree node_literal (firstn n entries) = Ok tree
        /\ full_nodes tree)
  /\ raw_tree fallback entries = raw_tree node_literal entries
  /\ build_tree_with fallback entries = build_tree_structure entries.
Proof.
  split; [|split].
  - intros n.
    destruct (raw_tree_insert node_literal (firstn n entries)) as [E Hwf].
    eexists. split; [exact E|]. eapply wf_full_nodes; eassumption.
  - destruct (raw_tree_insert fallback entries) as [-> _].
    destruct (raw_tree_insert node_literal entries) as [-> _]. reflexivity.
  - unfold build_tree_structure, build_tree_with.
    destruct (raw_tree_insert fallback entries) as [-> _].
    destruct (raw_tree_insert node_literal entries) as [-> _]. reflexivity.
Qed.

(** ** What an entry does to the node at a path *)

Lemma node_at_nil p : node_at [] p = None.
Proof. now destruct p. Qed.

Lemma node_at_single t k : node_at t [k] = dict_get k t.
Proof. simpl. now destruct (dict_get k t). Qed.

Lemma node_at_cons t k k' p' :
  node_at t (k :: k' :: p')
  = node_at (node_children (child_or_new t k)) (k' :: p').
Proof.
  unfold child_or_new. cbn [node_at].
  destruct (dict_get k t); [reflexivity|].
  cbn. reflexivity.
Qed.

Lemma child_or_new_wf ok t k :
  wf_tree ok t ->
  exists s cs b, child_or_new t k = mk_node s cs b /\ wf_tree ok cs.
Proof.
  intros Ht. unfold child_or_new. destruct (dict_get k t) as [v|] eqn:G.
  - eapply wf_tree_get; eauto.
  - exists 0, [], false. split; [reflexivity|constructor].
Qed.

Lemma node_at_insert ok is_dir size :
  (is_dir = true -> size = 0) ->
  forall segs t p,
    wf_tree ok t -> p <> [] ->
    node_at (insert_path is_dir size segs t) p
    = match strip_prefix p segs with
      | Some rest => Some (touched is_dir size rest (node_or_new (node_at t p)))
      | None => node_at t p
      end.
Proof.
  intros Hz. induction segs as [|k rest IH]; intros t p Ht Hp.
  - destruct p; [congruence|reflexivity].
  - destruct p as [|k' p']; [congruence|]. clear Hp.
    cbn [strip_prefix insert_path].
    destruct (child_or_new_wf ok t k Ht) as (s & cs & b & Hnode & Hcs).
    destruct (String.eqb_spec k' k) as [->|Hne].
    + (* the path goes through the node the loop is at *)
      destruct p' as [|k'' p''].
      * (* and ends there *)
        cbn [strip_prefix]. rewrite !node_at_single.
        replace (node_or_new (dict_get k t)) with (child_or_new t k)
          by reflexivity.
        rewrite Hnode. unfold touched. cbn [node_size node_children node_isdir
          mk_node dict_get String.eqb Ascii.eqb Bool.eqb].
        destruct rest as [|k1 rest1]; rewrite dict_get_set_eq.
        -- cbn [insert_path is_nil]. destruct is_dir; cbn [andb].
           ++ rewrite Hz by reflexivity. now rewrite Z.add_0_r, orb_true_r.
           ++ now rewrite orb_false_r.
        -- cbn [is_nil]. now rewrite andb_false_r, orb_false_r.
      * (* and goes on below *)
        rewrite (node_at_cons t).
        destruct rest as [|k1 rest1].
        -- cbn [strip_prefix].
           rewrite node_at_cons. unfold child_or_new at 1.
           rewrite dict_get_set_eq. rewrite Hnode. now destruct is_dir.
        -- rewrite node_at_cons. unfold child_or_new at 1.
           rewrite dict_get_set_eq. rewrite Hnode.
           cbn [node_children mk_node dict_get String.eqb Ascii.eqb Bool.eqb].
           apply IH; [exact Hcs|discriminate].
    + (* the path leaves the loop's way *)
      assert (E : forall x, node_at (dict_set k x t) (k' :: p')
                            = node_at t (k' :: p')).
      { intros x. cbn [node_at]. rewrite dict_get_set_neq by congruence.
        reflexivity. }
      destruct rest; apply E.
Qed.

Lemma node_at_wf ok p : forall t v,
  wf_tree ok t -> node_at t p = Some v ->
  exists s cs b, v = mk_node s cs b /\ wf_tree ok cs.
Proof.
  induction p as [|k p IH]; intros t v Ht Hv; [discriminate|].
  destruct p as [|k' p'].
  - rewrite node_at_single in Hv. eapply wf_tree_get; eauto.
  - rewrite node_at_cons in Hv.
    destruct (child_or_new_wf ok t k Ht) as (s & cs & b & E & Hcs).
    rewrite E in Hv. apply (IH cs); assumption.
Qed.

Lemma node_or_new_wf ok t p :
  wf_tree ok t ->
  exists s cs b, node_or_new (node_at t p) = mk_node s cs b /\ wf_tree ok cs.
Proof.
  intros Ht. destruct (node_at t p) as [v|] eqn:E.
  - eapply node_at_wf; eauto.
  - exists 0, [], false. split; [reflexivity|constructor].
Qed.

Lemma nodes_size_set k v (cs : odict pyval) :
  nodes_size (dict_set k v cs)
  = nodes_size cs + node_size v - node_size (child_or_new cs k).
Proof.
  unfold nodes_size, child_or_new.
  induction cs as [|[k' v'] cs IH]; simpl.
  - change (node_size (mk_node 0 [] false)) with 0. lia.
  - destruct (String.eqb k' k); simpl; lia.
Qed.

Lemma nodes_size_insert ok is_dir size rest cs :
  (is_dir = true -> size = 0) -> wf_tree ok cs ->
  nodes_size (insert_path is_dir size rest cs)
  = nodes_size cs + (if is_nil rest then 0 else size).
Proof.
  intros Hz Hcs. destruct rest as [|k r]; simpl; [lia|].
  destruct (child_or_new_wf ok cs k Hcs) as (s & c & b & E & _).
  destruct r as [|k' r']; rewrite nodes_size_set, E.
  - destruct is_dir; cbn; [rewrite Hz by reflexivity|]; lia.
  - cbn. lia.
Qed.

Lemma strip_prefix_is_prefix p l :
  is_prefix p l = match strip_prefix p l with Some _ => true | None => false end.
Proof.
  revert l. induction p as [|x p IH]; intros [|y l]; simpl; auto.
  destruct (String.eqb x y); simpl; auto.
Qed.

Lemma strip_prefix_app p l rest : strip_prefix p l = Some rest -> l = (p ++ rest)%list.
Proof.
  revert l. induction p as [|x p IH]; intros [|y l]; simpl; try congruence.
  destruct (String.eqb_spec x y) as [->|]; [|discriminate].
  intros H. f_equal. auto.
Qed.

Lemma strip_prefix_same p l :
  same_path l p
  = match strip_prefix p l with Some rest => is_nil rest | None => false end.
Proof.
  unfold same_path. destruct (list_eq_dec string_dec l p) as [->|Hne].
  - induction p as [|x p IH]; simpl; [reflexivity|].
    now rewrite String.eqb_refl.
  - destruct (strip_prefix p l) as [rest|] eqn:E; [|reflexivity].
    apply strip_prefix_app in E. destruct rest; [|reflexivity].
    rewrite app_nil_r in E. congruence.
Qed.

Lemma entry_size_file e :
  entry_size e = if is_file e then Size e else 0.
Proof. reflexivity. Qed.

Lemma subtree_size_snoc l e p :
  subtree_size (l ++ [e]) p
  = subtree_size l p + (if under p e then entry_size e else 0).
Proof.
  unfold subtree_size. rewrite filter_app, map_app, sumZ_app. f_equal.
  rewrite entry_size_file. simpl.
  destruct (is_file e), (under p e); simpl; lia.
Qed.

Lemma own_size_snoc l e p :
  own_size (l ++ [e]) p
  = own_size l p + (if same_path (segments e) p then entry_size e else 0).
Proof.
  unfold own_size. rewrite filter_app, map_app, sumZ_app. f_equal.
  rewrite entry_size_file. simpl.
  destruct (is_file e), (same_path (segments e) p); simpl; lia.
Qed.

Lemma marked_dir_snoc l e p :
  marked_dir (l ++ [e]) p
  = marked_dir l p || (IsDir e && same_path (segments e) p).
Proof. unfold marked_dir. rewrite existsb_app. simpl. now rewrite orb_false_r. Qed.

Lemma insert_entries_snoc l e t :
  insert_entries (l ++ [e]) t = insert_entry (insert_entries l t) e.
Proof. unfold insert_entries. now rewrite fold_left_app. Qed.

Lemma entry_size_dir e : IsDir e = true -> entry_size e = 0.
Proof. unfold entry_size. now intros ->. Qed.

(** The node at a path after all the entries: it is there when some entry
    lies at or beneath the path; its size is the sum of the sizes of the file
    entries at or beneath the path, of which the file entries with that very
    path are what it has beyond its children; it is flagged when some
    directory entry has that path. *)
Lemma node_at_entries entries p :
  p <> [] ->
  let t := insert_entries entries [] in
  let v := node_or_new (node_at t p) in
  (match node_at t p with Some _ => true | None => false end
   = existsb (under p) entries)
  /\ node_size v = subtree_size entries p
  /\ node_isdir v = marked_dir entries p
  /\ slack v = own_size entries p.
Proof.
  intros Hp. induction entries as [|e l IH] using rev_ind.
  - cbn. rewrite node_at_nil. repeat split.
  - cbv zeta in *. destruct IH as (IH1 & IH2 & IH3 & IH4).
    rewrite insert_entries_snoc.
    set (t := insert_entries l []) in *.
    assert (Ht : wf_tree any_key t)
      by (apply wf_insert_entries; [constructor|apply all_entries_any_key]).
    unfold insert_entry.
    rewrite (node_at_insert any_key _ _ (entry_size_dir e) _ _ _ Ht Hp).
    rewrite existsb_app, subtree_size_snoc, own_size_snoc, marked_dir_snoc.
    cbn [existsb]. rewrite orb_false_r.
    change (under p e) with (is_prefix p (segments e)).
    rewrite !strip_prefix_is_prefix, strip_prefix_same.
    destruct (strip_prefix p (segments e)) as [rest|] eqn:E.
    + destruct (node_or_new_wf any_key t p Ht) as (s & cs & b & Ev & Hcs).
      rewrite Ev in *. cbn [node_or_new]. unfold touched.
      cbn [node_size node_isdir node_children mk_node dict_get String.eqb
           Ascii.eqb Bool.eqb] in *.
      split; [now rewrite orb_true_r|]. split; [lia|]. split; [congruence|].
      unfold slack in *.
      cbn [node_size node_isdir node_children mk_node dict_get String.eqb
           Ascii.eqb Bool.eqb] in *.
      rewrite (nodes_size_insert any_key) by (auto using entry_size_dir).
      destruct (is_nil rest); lia.
    + rewrite andb_false_r, !orb_false_r, !Z.add_0_r. auto.
Qed.

(** ** The tree that is returned *)

Lemma clean_node_eq items : clean_node (PDict items) = clean_items items [].
Proof.
  simpl. generalize (@nil (string * pyval)) as acc.
  induction items as [|[k v] rest IH]; intros acc; [reflexivity|].
  cbn [clean_items]. unfold clean_value.
  destruct v as [z|b|vitems]; cbn [bind]; try apply IH.
  match goal with
  | |- match ?f vitems with _ => _ end = _ =>
      assert (E : forall xs, f xs = option_map clean_node
                                      (dict_get "_children" xs))
  end.
  { induction xs as [|[k' c] xs IHxs]; [reflexivity|].
    cbn [dict_get]. destruct (String.eqb k' "_children"); [reflexivity|].
    exact IHxs. }
  rewrite E. destruct (dict_get "_children" vitems) as [c|];
    cbn [option_map bind]; [|apply IH].
  destruct (clean_node c) as [sub|e]; cbn [bind]; [|reflexivity].
  destruct (dict_item "_size" vitems) as [size|e]; cbn [bind]; [|reflexivity].
  destruct (py_setitem sub "_size" size) as [sub1|e]; cbn [bind];
    [|reflexivity].
  destruct (dict_item "_isdir" vitems) as [isdir|e]; cbn [bind];
    [|reflexivity].
  destruct (py_setitem sub1 "_isdir" isdir) as [sub2|e]; cbn [bind];
    [apply IH|reflexivity].
Qed.

Lemma dict_set_fresh {V : Type} k (v : V) d :
  ~ In k (keys d) -> dict_set k v d = (d ++ [(k, v)])%list.
Proof.
  induction d as [|[k' v'] d IH]; simpl; [reflexivity|].
  intros H. destruct (String.eqb_spec k' k) as [->|Hne]; [tauto|].
  rewrite IH by tauto. reflexivity.
Qed.

Lemma clean_items_wf ok t :
  wf_tree ok t ->
  exists c,
    cleaned t c
    /\ forall acc, (forall k, In k (keys t) -> ~ In k (keys acc)) ->
                   clean_items t acc = Ok (PDict (acc ++ c)).
Proof.
  induction 1 as [|k s cs b rest Hok Hk Hcs IHcs Hrest IHrest].
  - exists []. split; [constructor|]. intros acc _. simpl.
    now rewrite app_nil_r.
  - destruct IHcs as (cc & Hcc & Ecs). destruct IHrest as (crest & Hcr & Erest).
    exists ((k, cleaned_node s cc b) :: crest). split; [now constructor|].
    intros acc Hacc. cbn [clean_items].
    assert (Ev : clean_value (mk_node s cs b) = Ok (cleaned_node s cc b)).
    { unfold clean_value, mk_node.
      cbn [dict_get String.eqb Ascii.eqb Bool.eqb].
      rewrite clean_node_eq, (Ecs []) by (intros; simpl; tauto).
      reflexivity. }
    rewrite Ev. cbn [bind].
    rewrite dict_set_fresh by (apply Hacc; now left).
    rewrite Erest.
    + now rewrite <- app_assoc.
    + intros k' Hk'. unfold keys. rewrite map_app, in_app_iff. simpl.
      intros [H|[<-|[]]]; [|contradiction].
      apply (Hacc k'); [now right|exact H].
Qed.

Lemma clean_node_wf ok t :
  wf_tree ok t ->
  exists c, clean_node (PDict t) = Ok (PDict c) /\ cleaned t c.
Proof.
  intros Ht. destruct (clean_items_wf ok t Ht) as (c & Hc & E).
  exists c. split; [|exact Hc].
  rewrite clean_node_eq. apply (E []). intros; simpl; tauto.
Qed.

(** [build_tree_structure] returns, and returns the cleaned tree of node
    dictionaries. *)
Lemma build_tree_cleaned entries :
  exists c,
    build_tree_structure entries = Ok (PDict c)
    /\ cleaned (insert_entries entries []) c.
Proof.
  unfold build_tree_structure, build_tree_with.
  destruct (raw_tree_insert node_literal entries) as [-> Hwf]. cbn [bind].
  eapply clean_node_wf; eassumption.
Qed.

Lemma cleaned_keys t c : cleaned t c -> keys c = keys t.
Proof. induction 1; simpl; congruence. Qed.

Lemma cleaned_get t c k :
  cleaned t c ->
  match dict_get k t with
  | Some v =>
      exists s cs b cc,
        v = mk_node s cs b /\ cleaned cs cc
        /\ dict_get k c = Some (cleaned_node s cc b)
  | None => dict_get k c = None
  end.
Proof.
  induction 1 as [|k' s cs b rest cc crest Hcc _ Hcr IH]; simpl;
    [reflexivity|].
  destruct (String.eqb k' k); [|exact IH].
  exists s, cs, b, cc. auto.
Qed.

(** ** Order of the entries *)

Lemma py_eq_dict xs ys :
  py_eq (PDict xs) (PDict ys)
  = (List.length xs =? List.length ys)%nat
    && forallb (fun kv => match dict_get (fst kv) ys with
                          | Some w => py_eq (snd kv) w
                          | None => false
                          end) xs.
Proof.
  cbn [py_eq]. f_equal.
  induction xs as [|[k v] xs IH]; [reflexivity|].
  cbn [forallb fst snd]. now rewrite <- IH.
Qed.

Lemma NoDup_keys_get {V : Type} (d : odict V) k v :
  NoDup (keys d) -> In (k, v) d -> dict_get k d = Some v.
Proof.
  induction d as [|[k' v'] d IH]; simpl; [tauto|].
  intros Hnd [[= -> ->]|Hin].
  - now rewrite String.eqb_refl.
  - inversion Hnd as [|? ? Hk Hd]; subst.
    destruct (String.eqb_spec k' k) as [->|Hne].
    + exfalso. apply Hk. change k with (fst (k, v)). now apply in_map.
    + auto.
Qed.

Lemma dict_equiv_keys c c' k :
  dict_equiv c c' -> In k (keys c) -> In k (keys c').
Proof.
  intros H Hin. specialize (H k).
  destruct (dict_get k c) as [v|] eqn:E.
  - destruct (dict_get k c') as [w|] eqn:E'; [|contradiction].
    eapply dict_get_Some_key; eauto.
  - apply dict_get_None in E. contradiction.
Qed.

Lemma dict_equiv_sym_keys c c' k :
  dict_equiv c c' -> In k (keys c') -> In k (keys c).
Proof.
  intros H Hin. specialize (H k).
  destruct (dict_get k c') as [w|] eqn:E'.
  - destruct (dict_get k c) as [v|] eqn:E; [|contradiction].
    eapply dict_get_Some_key; eauto.
  - apply dict_get_None in E'. contradiction.
Qed.

(** Dictionaries without repeated keys that bind the same keys to equal
    values are [==]. *)
Lemma py_eq_dict_intro c c' :
  NoDup (keys c) -> NoDup (keys c') -> dict_equiv c c' ->
  py_eq (PDict c) (PDict c') = true.
Proof.
  intros Hc Hc' Heq. rewrite py_eq_dict. apply andb_true_iff. split.
  - apply Nat.eqb_eq.
    assert (Hp : Permutation (keys c) (keys c')).
    { apply NoDup_Permutation; auto. intros k. split.
      - now apply dict_equiv_keys.
      - now apply dict_equiv_sym_keys. }
    apply Permutation_length in Hp. unfold keys in Hp.
    now rewrite !length_map in Hp.
  - apply forallb_forall. intros [k v] Hin. cbn [fst snd].
    specialize (Heq k). rewrite (NoDup_keys_get c k v Hc Hin) in Heq.
    destruct (dict_get k c'); [exact Heq|contradiction].
Qed.

Lemma NoDup_keys_set {V : Type} k (v : V) d :
  NoDup (keys d) -> NoDup (keys (dict_set k v d)).
Proof.
  intros H. rewrite keys_dict_set. destruct (dict_mem k d) eqn:E; [exact H|].
  apply NoDup_app; auto.
  - constructor; [tauto|constructor].
  - intros x Hx [->|[]]. unfold dict_mem in E.
    destruct (dict_get x d) eqn:G; [discriminate|].
    apply dict_get_None in G. contradiction.
Qed.

Lemma py_eq_cleaned_node s b cc cc' :
  NoDup (keys cc) -> NoDup (keys cc') -> dict_equiv cc cc' ->
  py_eq (cleaned_node s cc b) (cleaned_node s cc' b) = true.
Proof.
  intros Hc Hc' Heq. unfold cleaned_node.
  apply py_eq_dict_intro; try (now repeat apply NoDup_keys_set).
  intros k. rewrite !dict_get_set.
  destruct (String.eqb "_isdir" k); [apply Bool.eqb_reflx|].
  destruct (String.eqb "_size" k); [apply Z.eqb_refl|].
  apply Heq.
Qed.

Lemma same_nodes_children t t' k v v' :
  same_nodes t t' ->
  dict_get k t = Some v -> dict_get k t' = Some v' ->
  same_nodes (node_children v) (node_children v').
Proof.
  intros H G G' p Hp. specialize (H (k :: p) ltac:(discriminate)).
  destruct p as [|k' p']; [congruence|].
  rewrite !node_at_cons in H. unfold child_or_new in H.
  now rewrite G, G' in H.
Qed.

(** Trees with the same nodes are cleaned into dictionaries that are
    [==]. *)
Lemma cleaned_equiv_step ok t :
  (forall k v, dict_get k t = Some v ->
     forall c t' c',
       wf_tree ok (node_children v) -> wf_tree ok t' ->
       cleaned (node_children v) c -> cleaned t' c' ->
       same_nodes (node_children v) t' -> dict_equiv c c') ->
  forall c t' c',
    wf_tree ok t -> wf_tree ok t' -> cleaned t c -> cleaned t' c' ->
    same_nodes t t' -> dict_equiv c c'.
Proof.
  intros Hq c t' c' Ht Ht' Hc Hc' Hsame k.
  pose proof (cleaned_get t c k Hc) as G.
  pose proof (cleaned_get t' c' k Hc') as G'.
  pose proof (Hsame [k] ltac:(discriminate)) as Hk.
  rewrite !node_at_single in Hk.
  destruct (dict_get k t) as [v|] eqn:E;
    destruct (dict_get k t') as [v'|] eqn:E'; try contradiction.
  - destruct G as (s & cs & b & cc & -> & Hcc & ->).
    destruct G' as (s' & cs' & b' & cc' & -> & Hcc' & ->).
    destruct Hk as [Hs Hb]. cbn in Hs, Hb. subst s' b'.
    destruct (wf_tree_get ok _ _ _ Ht E) as (? & ? & ? & [= <- <- <-] & Hwcs).
    destruct (wf_tree_get ok _ _ _ Ht' E') as (? & ? & ? & [= <- <- <-] & Hwcs').
    apply py_eq_cleaned_node.
    + rewrite (cleaned_keys _ _ Hcc). eapply wf_tree_keys; eauto.
    + rewrite (cleaned_keys _ _ Hcc'). eapply wf_tree_keys; eauto.
    + apply (Hq k _ E cc cs' cc'); auto.
      apply (same_nodes_children t t' k _ _ Hsame E E').
  - now rewrite G, G'.
Qed.

Lemma cleaned_equiv ok t :
  wf_tree ok t ->
  forall k v, dict_get k t = Some v ->
    forall c t' c',
      wf_tree ok (node_children v) -> wf_tree ok t' ->
      cleaned (node_children v) c -> cleaned t' c' ->
      same_nodes (node_children v) t' -> dict_equiv c c'.
Proof.
  induction 1 as [|k s cs b rest Hok Hk Hcs IHcs Hrest IHrest];
    intros k' v; simpl; [discriminate|].
  destruct (String.eqb k' k).
  - destruct (String.eqb k k') eqn:E.
    + intros [= <-]. cbn. now apply cleaned_equiv_step.
    + apply IHrest.
  - destruct (String.eqb k k') eqn:E.
    + intros [= <-]. cbn. now apply cleaned_equiv_step.
    + apply IHrest.
Qed.

Lemma cleaned_same_nodes ok t t' c c' :
  wf_tree ok t -> wf_tree ok t' -> cleaned t c -> cleaned t' c' ->
  same_nodes t t' -> dict_equiv c c'.
Proof.
  intros Ht Ht' Hc Hc' Hs.
  apply (cleaned_equiv_step ok t (cleaned_equiv ok t Ht) c t' c');
    assumption.
Qed.

Lemma sumZ_filter_perm (f : Entry -> bool) l l' :
  Permutation l l' ->
  sumZ (map Size (filter f l)) = sumZ (map Size (filter f l')).
Proof.
  induction 1 as [|x l l' _ IH|x y l|l l' l'' _ IH1 _ IH2]; simpl.
  - reflexivity.
  - destruct (f x); simpl; lia.
  - destruct (f x), (f y); simpl; lia.
  - lia.
Qed.

Lemma existsb_perm (f : Entry -> bool) l l' :
  Permutation l l' -> existsb f l = existsb f l'.
Proof.
  induction 1 as [|x l l' _ IH|x y l|l l' l'' _ IH1 _ IH2]; simpl.
  - reflexivity.
  - now rewrite IH.
  - now destruct (f x), (f y).
  - congruence.
Qed.

(** The nodes of the tree under construction do not depend on the order of
    the entries. *)
Lemma same_nodes_perm entries entries' :
  Permutation entries entries' ->
  same_nodes (insert_entries entries []) (insert_entries entries' []).
Proof.
  intros Hperm p Hp.
  destruct (node_at_entries entries p Hp) as (H1 & H2 & H3 & _).
  destruct (node_at_entries entries' p Hp) as (H1' & H2' & H3' & _).
  rewrite (existsb_perm _ _ _ Hperm) in H1.
  unfold subtree_size in H2. rewrite (sumZ_filter_perm _ _ _ Hperm) in H2.
  unfold marked_dir in H3. rewrite (existsb_perm _ _ _ Hperm) in H3.
  fold (subtree_size entries' p) in H2. fold (marked_dir entries' p) in H3.
  destruct (node_at (insert_entries entries []) p) as [v|];
    destruct (node_at (insert_entries entries' []) p) as [v'|];
    cbn [node_or_new] in *; try congruence; try exact I.
  split; congruence.
Qed.

(** C1: the trees built from a list of entries and from any permutation of
    it are equal dictionaries (Python's [==]): the same nodes, with the same
    sizes and the same flags. *)
Theorem build_tree_order_invariant (entries entries' : list Entry) :
  Permutation entries entries' ->
  exists tree tree',
    build_tree_structure entries = Ok tree
    /\ build_tree_structure entries' = Ok tree'
    /\ py_eq tree tree' = true.
Proof.
  intros Hperm.
  destruct (build_tree_cleaned entries) as (c & E & Hc).
  destruct (build_tree_cleaned entries') as (c' & E' & Hc').
  exists (PDict c), (PDict c'). split; [exact E|]. split; [exact E'|].
  destruct (raw_tree_insert node_literal entries) as [_ Hwf].
  destruct (raw_tree_insert node_literal entries') as [_ Hwf'].
  apply py_eq_dict_intro.
  - rewrite (cleaned_keys _ _ Hc). eapply wf_tree_keys; eauto.
  - rewrite (cleaned_keys _ _ Hc'). eapply wf_tree_keys; eauto.
  - apply (cleaned_same_nodes any_key _ _ _ _ Hwf Hwf' Hc Hc').
    now apply same_nodes_perm.
Qed.

Lemma build_tree_order_invariant_witness :
  exists tree tree',
    build_tree_structure
      [mkEntry "a/b/f1.txt" false 100; mkEntry "a/b" true 0;
       mkEntry "a/c/f2.txt" false 50] = Ok tree
    /\ build_tree_structure
         [mkEntry "a/b" true 0; mkEntry "a/c/f2.txt" false 50;
          mkEntry "a/b/f1.txt" false 100] = Ok tree'
    /\ py_eq tree tree' = true.
Proof.
  apply build_tree_order_invariant.
  apply Permutation_cons_append with (l := [_; _]).
Defined.

(** The order in which the keys were inserted does depend on the order of
    the entries; [==] on dictionaries does not look at it. *)
Example build_tree_insertion_order :
  build_tree_structure [mkEntry "a" false 1; mkEntry "b" false 2]
  <> build_tree_structure [mkEntry "b" false 2; mkEntry "a" false 1].
Proof. discriminate. Qed.

(** ** Nodes of the returned tree *)

Lemma dict_get_cleaned_node s cc b k :
  dict_get k (dict_set "_isdir" (PBool b) (dict_set "_size" (PInt s) cc))
  = if String.eqb "_isdir" k then Some (PBool b)
    else if String.eqb "_size" k then Some (PInt s)
    else dict_get k cc.
Proof. now rewrite !dict_get_set. Qed.

Lemma reserved_false k :
  reserved k = false ->
  String.eqb "_isdir" k = false /\ String.eqb "_size" k = false.
Proof.
  unfold reserved. rewrite (String.eqb_sym k "_size"), (String.eqb_sym k "_isdir").
  intros H. apply orb_false_iff in H. tauto.
Qed.

Lemma tree_get_cleaned_node s cc b k p :
  reserved k = false ->
  tree_get (cleaned_node s cc b) (k :: p) = tree_get (PDict cc) (k :: p).
Proof.
  intros Hk. unfold cleaned_node. cbn [tree_get].
  rewrite dict_get_cleaned_node.
  destruct (reserved_false k Hk) as [-> ->]. reflexivity.
Qed.

(** From the tree under construction to the returned tree. *)
Lemma tree_get_of_node_at p : forall t c v,
  cleaned t c -> Forall (fun k => reserved k = false) (tl p) ->
  node_at t p = Some v ->
  exists s cs b cc,
    v = mk_node s cs b /\ cleaned cs cc
    /\ tree_get (PDict c) p = Some (cleaned_node s cc b).
Proof.
  induction p as [|k p IH]; intros t c v Hc Hp Hv; [discriminate|].
  pose proof (cleaned_get t c k Hc) as G.
  destruct p as [|k' p'].
  - rewrite node_at_single in Hv. rewrite Hv in G.
    destruct G as (s & cs & b & cc & -> & Hcc & G).
    exists s, cs, b, cc. cbn [tree_get]. rewrite G. auto.
  - rewrite node_at_cons in Hv. unfold child_or_new in Hv.
    destruct (dict_get k t) as [x|] eqn:E; [|discriminate].
    destruct G as (s & cs & b & cc & -> & Hcc & G).
    cbn [tl] in Hp. inversion Hp as [|? ? Hk' Hp']; subst.
    destruct (IH cs cc v Hcc Hp' Hv) as (s' & cs' & b' & cc' & -> & Hcc' & Hg).
    exists s', cs', b', cc'. split; [reflexivity|]. split; [exact Hcc'|].
    change (tree_get (PDict c) (k :: k' :: p'))
      with (match dict_get k c with
            | Some x => tree_get x (k' :: p')
            | None => None
            end).
    rewrite G, tree_get_cleaned_node by assumption. exact Hg.
Qed.

Lemma tree_get_leaf v p d :
  is_dict v = false -> tree_get v p = Some (PDict d) -> False.
Proof.
  destruct v; try discriminate; intros _; destruct p; discriminate.
Qed.

(** From the returned tree to the tree under construction. *)
Lemma node_at_of_tree_get p : forall t c d,
  cleaned t c -> p <> [] -> tree_get (PDict c) p = Some (PDict d) ->
  exists s cs b cc,
    node_at t p = Some (mk_node s cs b) /\ cleaned cs cc
    /\ PDict d = cleaned_node s cc b.
Proof.
  induction p as [|k p IH]; intros t c d Hc Hp Hd; [congruence|]. clear Hp.
  pose proof (cleaned_get t c k Hc) as G.
  cbn [tree_get] in Hd.
  destruct (dict_get k c) as [x|] eqn:Ex; [|discriminate].
  destruct (dict_get k t) as [v|] eqn:E; [|congruence].
  destruct G as (s & cs & b & cc & -> & Hcc & [= ->]).
  destruct p as [|k' p'].
  - cbn [tree_get] in Hd.
    exists s, cs, b, cc. rewrite node_at_single, E.
    split; [reflexivity|]. split; [exact Hcc|congruence].
  - rewrite node_at_cons. unfold child_or_new. rewrite E.
    change (node_children (mk_node s cs b)) with cs.
    unfold cleaned_node in Hd. cbn [tree_get] in Hd.
    rewrite dict_get_cleaned_node in Hd.
    destruct (String.eqb "_isdir" k');
      [exfalso; eapply (tree_get_leaf (PBool b)); eauto|].
    destruct (String.eqb "_size" k');
      [exfalso; eapply (tree_get_leaf (PInt s)); eauto|].
    apply (IH cs cc d Hcc); [discriminate|exact Hd].
Qed.

Lemma node_size_cleaned_node s cc b : node_size (cleaned_node s cc b) = s.
Proof.
  unfold node_size, cleaned_node. now rewrite dict_get_cleaned_node.
Qed.

Lemma cleaned_node_fields s cc b d :
  PDict d = cleaned_node s cc b ->
  dict_get "_size" d = Some (PInt s) /\ dict_get "_isdir" d = Some (PBool b).
Proof.
  unfold cleaned_node. intros [= ->]. now rewrite !dict_get_cleaned_node.
Qed.

Lemma in_entries_under entries e p :
  In e entries -> segments e = p -> existsb (under p) entries = true.
Proof.
  intros Hin Hp. apply existsb_exists. exists e. split; [exact Hin|].
  unfold under. rewrite Hp. clear. induction p as [|k p IH]; simpl; auto.
  now rewrite String.eqb_refl.
Qed.

Lemma same_path_refl p : same_path p p = true.
Proof. unfold same_path. now destruct (list_eq_dec string_dec p p). Qed.

(** The node at the path of an entry, in the tree under construction. *)
Lemma node_at_entry entries e :
  In e entries -> segments e <> [] ->
  exists cs,
    wf_tree any_key cs
    /\ node_at (insert_entries entries []) (segments e)
       = Some (mk_node (subtree_size entries (segments e)) cs
                       (marked_dir entries (segments e))).
Proof.
  intros Hin Hp.
  destruct (node_at_entries entries (segments e) Hp) as (H1 & H2 & H3 & _).
  rewrite (in_entries_under entries e _ Hin eq_refl) in H1.
  destruct (raw_tree_insert node_literal entries) as [_ Hwf].
  destruct (node_at (insert_entries entries []) (segments e)) as [v|] eqn:E;
    [|discriminate].
  destruct (node_at_wf any_key _ _ _ Hwf E) as (s & cs & b & -> & Hcs).
  cbn in H2, H3. subst s b. eauto.
Qed.

(** C3: when a path is given both by a directory entry and by a file entry,
    wherever they stand in the list, and no name on the path below the top
    level is one of the keys [_size] and [_isdir], the node of the path in
    the returned tree is flagged as a directory and its size is the sum of
    the sizes of the file entries at or beneath the path, the file entry's
    own size among them.  In the tree under construction the node is so
    flagged and sized whatever the names are. *)
Theorem directory_wins (entries : list Entry) (dir_entry file_entry : Entry)
        (p : list string) :
  In dir_entry entries -> In file_entry entries ->
  IsDir dir_entry = true -> IsDir file_entry = false ->
  segments dir_entry = p -> segments file_entry = p -> p <> [] ->
  (exists t cs,
      raw_tree node_literal entries = Ok (PDict t)
      /\ node_at t p = Some (mk_node (subtree_size entries p) cs true))
  /\ (Forall (fun k => reserved k = false) (tl p) ->
      exists tree d,
        build_tree_structure entries = Ok tree
        /\ tree_get tree p = Some (PDict d)
        /\ dict_get "_isdir" d = Some (PBool true)
        /\ dict_get "_size" d = Some (PInt (subtree_size entries p)))
  /\ (exists others,
        Permutation entries (file_entry :: others)
        /\ subtree_size entries p = Size file_entry + subtree_size others p).
Proof.
  intros Hd Hf Hisd Hisf Hpd Hpf Hp.
  assert (Hm : marked_dir entries p = true).
  { apply existsb_exists. exists dir_entry. split; [exact Hd|].
    now rewrite Hisd, Hpd, same_path_refl. }
  destruct (node_at_entry entries file_entry Hf) as (cs & Hcs & Hnode);
    [congruence|].
  rewrite Hpf, Hm in Hnode.
  destruct (raw_tree_insert node_literal entries) as [Eraw Hwf].
  split; [|split].
  - exists (insert_entries entries []), cs. auto.
  - intros Hres.
    destruct (build_tree_cleaned entries) as (c & Ec & Hc).
    destruct (tree_get_of_node_at p _ c _ Hc Hres Hnode)
      as (s & cs' & b & cc & [= <- <- <-] & Hcc & Hget).
    exists (PDict c), (dict_set "_isdir" (PBool true)
                         (dict_set "_size" (PInt (subtree_size entries p)) cc)).
    split; [exact Ec|]. split; [exact Hget|].
    now rewrite !dict_get_cleaned_node.
  - destruct (in_split _ _ Hf) as (l1 & l2 & ->).
    exists (l1 ++ l2)%list. split.
    + symmetry. apply Permutation_middle.
    + unfold subtree_size.
      rewrite (sumZ_filter_perm _ _ (file_entry :: l1 ++ l2));
        [|symmetry; apply Permutation_middle].
      cbn [filter]. unfold is_file at 1, under at 1.
      rewrite Hisf, Hpf.
      replace (is_prefix p p) with true; [reflexivity|].
      clear. induction p as [|k p IH]; simpl; auto.
      now rewrite String.eqb_refl.
Qed.

Lemma directory_wins_witness :
  let entries := [mkEntry "docs/a.txt" false 7; mkEntry "docs" false 10;
                  mkEntry "docs/" true 0] in
  (exists t cs,
      raw_tree node_literal entries = Ok (PDict t)
      /\ node_at t ["docs"]
         = Some (mk_node (subtree_size entries ["docs"]) cs true))
  /\ (exists tree d,
        build_tree_structure entries = Ok tree
        /\ tree_get tree ["docs"] = Some (PDict d)
        /\ dict_get "_isdir" d = Some (PBool true)
        /\ dict_get "_size" d = Some (PInt 17))
  /\ (exists others,
        Permutation entries (mkEntry "docs" false 10 :: others)
        /\ subtree_size entries ["docs"]
           = Size (mkEntry "docs" false 10) + subtree_size others ["docs"]).
Proof.
  cbv zeta.
  destruct (directory_wins
              [mkEntry "docs/a.txt" false 7; mkEntry "docs" false 10;
               mkEntry "docs/" true 0]
              (mkEntry "docs/" true 0) (mkEntry "docs" false 10) ["docs"]
              (or_intror (or_intror (or_introl eq_refl)))
              (or_intror (or_introl eq_refl))
              eq_refl eq_refl eq_refl eq_refl ltac:(discriminate))
    as (Hraw & Hreturned & Hsize).
  split; [exact Hraw|]. split; [|exact Hsize].
  apply Hreturned. constructor.
Defined.

(** A directory entry and a file entry that both name [a/_isdir], in either
    order.  The tree under construction holds the node of the path, flagged
    and of size 5, but [clean_node] then writes the flag of [a] over the
    child called [_isdir]: the returned tree is
    [{'a': {'_isdir': False, '_size': 5}}], and no node stands at the
    path. *)
Lemma directory_wins_counterexample :
  let dir_entry := mkEntry "a/_isdir" true 0 in
  let file_entry := mkEntry "a/_isdir" false 5 in
  let tree :=
    PDict [("a", PDict [("_isdir", PBool false); ("_size", PInt 5)])] in
  segments dir_entry = ["a"; "_isdir"]
  /\ segments file_entry = ["a"; "_isdir"]
  /\ build_tree_structure [dir_entry; file_entry] = Ok tree
  /\ build_tree_structure [file_entry; dir_entry] = Ok tree
  /\ tree_get tree ["a"; "_isdir"] = Some (PBool false)
  /\ ~ (exists d,
          tree_get tree ["a"; "_isdir"] = Some (PDict d)
          /\ dict_get "_isdir" d = Some (PBool true)).
Proof.
  cbv zeta. repeat split; try reflexivity.
  intros (d & H & _). discriminate H.
Qed.

(** The scenario of the specification through the tree builder: [a] has
    size 150 and the children [b] (size 100, flagged by its own entry) and
    [c] (size 50, created on the way and not flagged). *)
Example build_tree_scenario :
  build_tree_structure
    [mkEntry "a/b/f1.txt" false 100; mkEntry "a/b" true 0;
     mkEntry "a/c/f2.txt" false 50]
  = Ok (PDict
          [("a",
            PDict
              [("b",
                PDict
                  [("f1.txt",
                    PDict [("_size", PInt 100); ("_isdir", PBool false)]);
                   ("_size", PInt 100); ("_isdir", PBool true)]);
               ("c",
                PDict
                  [("f2.txt",
                    PDict [("_size", PInt 50); ("_isdir", PBool false)]);
                   ("_size", PInt 50); ("_isdir", PBool false)]);
               ("_size", PInt 150); ("_isdir", PBool false)])]).
Proof. reflexivity. Qed.

(** Both orders of the two entries. *)
Example directory_wins_either_order :
  build_tree_structure [mkEntry "x" true 0; mkEntry "x" false 9]
  = Ok (PDict [("x", PDict [("_size", PInt 9); ("_isdir", PBool true)])])
  /\ build_tree_structure [mkEntry "x" false 9; mkEntry "x" true 0]
     = Ok (PDict [("x", PDict [("_size", PInt 9); ("_isdir", PBool true)])]).
Proof. split; reflexivity. Qed.

(** ** Sizes of the returned nodes *)

Lemma plain_key_reserved k : plain_key k = true <-> reserved k = false.
Proof. unfold plain_key. now destruct (reserved k). Qed.

Lemma cleaned_nodes_size cs cc :
  cleaned cs cc ->
  sumZ (map (fun kv => node_size (snd kv)) cc) = nodes_size cs.
Proof.
  unfold nodes_size. induction 1 as [|k s cs b rest cc crest _ _ _ IH];
    [reflexivity|].
  cbn [map sumZ fold_right snd]. rewrite node_size_cleaned_node.
  fold (sumZ (map (fun kv => node_size (snd kv)) crest)).
  fold (sumZ (map (fun kv : string * pyval => node_size (snd kv)) rest)).
  rewrite IH. reflexivity.
Qed.

Lemma child_nodes_plain (cc : odict pyval) :
  Forall (fun k => reserved k = false) (keys cc) -> child_nodes cc = cc.
Proof.
  unfold child_nodes. induction cc as [|[k v] cc IH]; simpl; [reflexivity|].
  intros H. inversion H as [|? ? Hk Hrest]; subst.
  rewrite Hk. simpl. now rewrite IH.
Qed.

Lemma child_nodes_cleaned_node s cc b :
  Forall (fun k => reserved k = false) (keys cc) ->
  child_nodes (dict_set "_isdir" (PBool b) (dict_set "_size" (PInt s) cc))
  = cc.
Proof.
  intros H.
  assert (Hs : ~ In "_size" (keys cc)).
  { intros Hin. rewrite Forall_forall in H. now specialize (H _ Hin). }
  assert (Hi : ~ In "_isdir" (keys cc)).
  { intros Hin. rewrite Forall_forall in H. now specialize (H _ Hin). }
  rewrite (dict_set_fresh "_size") by exact Hs.
  rewrite (dict_set_fresh "_isdir").
  - unfold child_nodes. rewrite !filter_app. simpl. rewrite !app_nil_r.
    now apply child_nodes_plain.
  - unfold keys. rewrite map_app, in_app_iff. simpl.
    intros [Hin|[Heq|[]]]; [now apply Hi|discriminate].
Qed.

Lemma wf_plain_keys cs :
  wf_tree plain_key cs -> Forall (fun k => reserved k = false) (keys cs).
Proof.
  intros H. rewrite Forall_forall. intros k Hk.
  apply plain_key_reserved. eapply wf_tree_ok; eauto.
Qed.

Lemma own_size_none entries p :
  (forall e, In e entries -> is_file e = true -> segments e <> p) ->
  own_size entries p = 0.
Proof.
  intros H. unfold own_size.
  induction entries as [|e l IH]; [reflexivity|].
  cbn [filter]. destruct (is_file e) eqn:Ef; cbn [andb].
  - unfold same_path.
    destruct (list_eq_dec string_dec (segments e) p) as [Heq|_].
    + exfalso. apply (H e); simpl; auto.
    + apply IH. intros e' He'. apply H. now right.
  - apply IH. intros e' He'. apply H. now right.
Qed.

(** C2, as the code has it: in the returned tree the size of a node is the
    sum of the sizes of the file entries at or beneath its path, that is, the
    sum of its children's sizes and of the sizes of the file entries whose
    path is the node's own; a node whose path is not that of a file entry
    has the sum of its children's sizes.  (For entries in which no name is
    one of the keys [_size] and [_isdir].) *)
Theorem node_size_aggregates (entries : list Entry) (tree : pyval)
        (p : list string) (d : odict pyval) :
  Forall (fun e => Forall (fun k => reserved k = false) (segments e)) entries ->
  build_tree_structure entries = Ok tree ->
  p <> [] ->
  tree_get tree p = Some (PDict d) ->
  dict_get "_size" d = Some (PInt (subtree_size entries p))
  /\ subtree_size entries p = own_size entries p + children_size d
  /\ ((forall e, In e entries -> is_file e = true -> segments e <> p) ->
      dict_get "_size" d = Some (PInt (children_size d))).
Proof.
  intros Hres Hbuild Hp Hget.
  destruct (build_tree_cleaned entries) as (c & Ec & Hc).
  rewrite Ec in Hbuild. injection Hbuild as <-.
  destruct (node_at_of_tree_get p _ c d Hc Hp Hget)
    as (s & cs & b & cc & Hnode & Hcc & Hd).
  assert (Hwf : wf_tree plain_key (insert_entries entries [])).
  { apply wf_insert_entries; [constructor|].
    eapply Forall_impl; [|exact Hres]. intros e He.
    eapply Forall_impl; [|exact He]. intros k. apply plain_key_reserved. }
  destruct (node_at_wf plain_key _ _ _ Hwf Hnode)
    as (s' & cs' & b' & [= <- <- <-] & Hcs).
  destruct (node_at_entries entries p Hp) as (_ & H2 & _ & H4).
  rewrite Hnode in H2, H4. cbn [node_or_new] in H2, H4.
  change (node_size (mk_node s cs b)) with s in H2.
  unfold slack in H4.
  change (node_size (mk_node s cs b)) with s in H4.
  change (node_children (mk_node s cs b)) with cs in H4.
  assert (Hch : children_size d = nodes_size cs).
  { unfold cleaned_node in Hd. injection Hd as ->.
    unfold children_size. rewrite child_nodes_cleaned_node.
    - now apply cleaned_nodes_size.
    - rewrite (cleaned_keys _ _ Hcc). now apply wf_plain_keys. }
  destruct (cleaned_node_fields _ _ _ _ Hd) as [Hsize _].
  assert (Hsum : subtree_size entries p = own_size entries p + children_size d)
    by lia.
  split; [now rewrite Hsize, H2|]. split; [exact Hsum|].
  intros Hnone. rewrite (own_size_none _ _ Hnone) in Hsum.
  rewrite Hsize. f_equal. f_equal. lia.
Qed.

Lemma node_size_aggregates_witness :
  let entries := [mkEntry "a/b/f1.txt" false 100; mkEntry "a/b" true 0;
                  mkEntry "a/c/f2.txt" false 50] in
  let d := [("f1.txt", PDict [("_size", PInt 100); ("_isdir", PBool false)]);
            ("_size", PInt 100); ("_isdir", PBool true)] in
  dict_get "_size" d = Some (PInt (subtree_size entries ["a"; "b"]))
  /\ subtree_size entries ["a"; "b"]
     = own_size entries ["a"; "b"] + children_size d
  /\ ((forall e, In e entries -> is_file e = true ->
                 segments e <> ["a"; "b"]) ->
      dict_get "_size" d = Some (PInt (children_size d))).
Proof.
  cbv zeta.
  eapply (node_size_aggregates _ _ ["a"; "b"]).
  - repeat constructor.
  - reflexivity.
  - discriminate.
  - reflexivity.
Defined.

(** A directory entry, a file entry with the same path and a file beneath
    it: the node is a directory with a child, its size is 15, and the sizes
    of its children -- of all the file-type nodes beneath it -- add up
    to 5. *)
Lemma directory_size_counterexample :
  exists tree d,
    build_tree_structure
      [mkEntry "a" true 0; mkEntry "a" false 10; mkEntry "a/b" false 5]
    = Ok tree
    /\ tree_get tree ["a"] = Some (PDict d)
    /\ dict_get "_isdir" d = Some (PBool true)
    /\ child_nodes d <> []
    /\ dict_get "_size" d = Some (PInt 15)
    /\ children_size d = 5
    /\ file_descendants_size (PDict d) = 5.
Proof.
  eexists. eexists. split; [reflexivity|]. split; [reflexivity|].
  repeat split. discriminate.
Qed.

(** * Further properties *)

(** ** Splitting and joining *)

Lemma concat_cons sep x y l :
  String.concat sep (x :: y :: l)
  = (x ++ sep ++ String.concat sep (y :: l))%string.
Proof. reflexivity. Qed.

Lemma join_split c s :
  PyStr.join (String c EmptyString) (PyStr.split c s) = s.
Proof.
  unfold PyStr.join. induction s as [|a r IH]; [reflexivity|].
  cbn [PyStr.split]. pose proof (split_not_nil c r) as Hn.
  destruct (PyStr.split c r) as [|h t]; [congruence|].
  destruct (Ascii.eqb_spec a c) as [->|Hne].
  - rewrite concat_cons, IH. reflexivity.
  - destruct t as [|h' t'].
    + cbn in *. now rewrite IH.
    + rewrite concat_cons. rewrite concat_cons in IH.
      cbn [append] in *. now rewrite IH.
Qed.

Lemma split_no_sep c s : Forall (fun part => has_char c part = false) (PyStr.split c s).
Proof.
  induction s as [|a r IH]; [repeat constructor|].
  cbn [PyStr.split]. destruct (Ascii.eqb_spec a c) as [->|Hne].
  - constructor; [reflexivity|exact IH].
  - destruct (PyStr.split c r) as [|h t].
    + constructor; [|constructor]. cbn.
      destruct (Ascii.eqb_spec a c); [contradiction|reflexivity].
    + inversion IH; subst. constructor; [|assumption]. cbn.
      destruct (Ascii.eqb_spec a c); [contradiction|assumption].
Qed.

Lemma split_part c x :
  has_char c x = false -> PyStr.split c x = [x].
Proof.
  induction x as [|a r IH]; [reflexivity|]. cbn.
  destruct (Ascii.eqb a c); [discriminate|]. cbn. intros H.
  now rewrite IH.
Qed.

Lemma split_part_sep c x rest :
  has_char c x = false ->
  PyStr.split c (x ++ String c rest) = x :: PyStr.split c rest.
Proof.
  induction x as [|a r IH]; cbn.
  - now rewrite Ascii.eqb_refl.
  - destruct (Ascii.eqb a c); [discriminate|]. cbn. intros H.
    now rewrite IH.
Qed.

Lemma split_join c parts :
  parts <> [] -> Forall (fun part => has_char c part = false) parts ->
  PyStr.split c (PyStr.join (String c EmptyString) parts) = parts.
Proof.
  unfold PyStr.join. induction parts as [|x l IH]; [congruence|].
  intros _ H. inversion H as [|? ? Hx Hl]; subst.
  destruct l as [|y l'].
  - cbn. now apply split_part.
  - rewrite concat_cons.
    change (String c EmptyString ++ String.concat (String c EmptyString) (y :: l'))%string
      with (String c (String.concat (String c EmptyString) (y :: l'))).
    rewrite split_part_sep by assumption.
    rewrite IH; [reflexivity|discriminate|assumption].
Qed.

(** X1: splitting on a separator and joining with it are inverse: the parts
    of a string hold no separator and join back to the string, and a
    non-empty list of parts without separator is what its join splits
    into. *)
Theorem split_join_round_trip (c : ascii) :
  (forall s,
      PyStr.join (String c EmptyString) (PyStr.split c s) = s
      /\ PyStr.split c s <> []
      /\ Forall (fun part => has_char c part = false) (PyStr.split c s))
  /\ (forall parts,
         parts <> [] ->
         Forall (fun part => has_char c part = false) parts ->
         PyStr.split c (PyStr.join (String c EmptyString) parts) = parts).
Proof.
  split.
  - intros s. auto using join_split, split_not_nil, split_no_sep.
  - apply split_join.
Qed.

Lemma split_join_round_trip_witness :
  PyStr.split "/" (PyStr.join "/" ["a"; ""; "b.txt"]) = ["a"; ""; "b.txt"].
Proof.
  apply (proj2 (split_join_round_trip "/")); [discriminate|].
  repeat constructor.
Defined.

(** ** Depth aggregator *)

Lemma dir_path_shallow depth file :
  depth <= 0
  \/ Z.of_nat (List.length (PyStr.split "/" (Path file))) <= depth ->
  dir_path depth file = Path file.
Proof.
  unfold dir_path. intros [H|H].
  - destruct (Z.ltb_spec 0 depth); [lia|reflexivity].
  - destruct (Z.ltb_spec 0 depth); [|reflexivity].
    rewrite firstn_all2 by lia. apply (join_split "/").
Qed.

Lemma group_loop_get depth files key :
  exists grouped,
    group_by_depth_and_sum_size files depth = Ok grouped
    /\ NoDup (keys grouped)
    /\ dict_get key grouped
       = let mine := filter (fun f => negb (IsDir f)
                                      && String.eqb (dir_path depth f) key)
                            files in
         if existsb (fun f => negb (IsDir f)
                              && String.eqb (dir_path depth f) key) files
         then Some (sumZ (map Size mine)) else None.
Proof.
  unfold group_by_depth_and_sum_size.
  assert (Hnd : forall fs g g', NoDup (keys g) ->
                  group_loop depth fs g = Ok g' -> NoDup (keys g')).
  { induction fs as [|f fs IH]; intros g g' Hg; cbn [group_loop].
    - now intros [= <-].
    - unfold group_step.
      destruct (IsDir f); cbn [bind]; [now apply IH|].
      unfold dict_item.
      destruct (dict_get _ _) as [old|]; cbn [bind]; [|discriminate].
      apply IH. apply NoDup_keys_set.
      destruct (negb _); [now apply NoDup_keys_set|exact Hg]. }
  destruct (group_loop_ok depth files []) as (g & Hg & Hget & _).
  exists g. split; [exact Hg|]. split.
  - apply (Hnd files [] g); [constructor|exact Hg].
  - rewrite Hget. cbv zeta. cbn [dict_get].
    set (p := fun f => negb (IsDir f) && String.eqb (dir_path depth f) key).
    assert (E : existsb p files
                = match filter p files with [] => false | _ => true end).
    { clear. induction files as [|f fs IH]; [reflexivity|]. cbn.
      destruct (p f); [reflexivity|exact IH]. }
    rewrite E. now destruct (filter p files).
Qed.

(** X2: a file with no more path segments than the depth asked for, and
    every file when the depth is zero or negative, is grouped under its full
    path: it is not left out of the report. *)
Theorem shallow_file_grouped (files : list Entry) (depth : Z) (file : Entry) :
  In file files -> IsDir file = false ->
  depth <= 0
  \/ Z.of_nat (List.length (PyStr.split "/" (Path file))) <= depth ->
  exists grouped total,
    group_by_depth_and_sum_size files depth = Ok grouped
    /\ dir_path depth file = Path file
    /\ dict_get (Path file) grouped = Some total.
Proof.
  intros Hin Hfile Hshallow.
  pose proof (dir_path_shallow depth file Hshallow) as Hkey.
  destruct (group_loop_get depth files (Path file)) as (g & Hg & _ & Hget).
  exists g. cbv zeta in Hget.
  replace (existsb _ files) with true in Hget.
  - eexists. split; [exact Hg|]. split; [exact Hkey|exact Hget].
  - symmetry. apply existsb_exists. exists file. split; [exact Hin|].
    now rewrite Hfile, Hkey, String.eqb_refl.
Qed.

Lemma shallow_file_grouped_witness :
  exists grouped total,
    group_by_depth_and_sum_size
      [mkEntry "a/b/c.bin" false 7; mkEntry "top.txt" false 50] 2 = Ok grouped
    /\ dir_path 2 (mkEntry "top.txt" false 50) = "top.txt"
    /\ dict_get "top.txt" grouped = Some total.
Proof.
  apply (shallow_file_grouped _ 2 (mkEntry "top.txt" false 50));
    [now right; left|reflexivity|right; cbn; lia].
Defined.

(** X3: the mapping of the aggregator does not depend on the order of the
    listing: a permutation of the entries binds the same keys to the same
    sums (the keys may come in another order). *)
Theorem group_order_invariant (files files' : list Entry) (depth : Z) :
  Permutation files files' ->
  exists grouped grouped',
    group_by_depth_and_sum_size files depth = Ok grouped
    /\ group_by_depth_and_sum_size files' depth = Ok grouped'
    /\ Permutation (keys grouped) (keys grouped')
    /\ forall key, dict_get key grouped = dict_get key grouped'.
Proof.
  intros Hperm.
  assert (Hget : forall key,
             exists g g',
               group_by_depth_and_sum_size files depth = Ok g
               /\ group_by_depth_and_sum_size files' depth = Ok g'
               /\ NoDup (keys g) /\ NoDup (keys g')
               /\ dict_get key g = dict_get key g').
  { intros key.
    destruct (group_loop_get depth files key) as (g & Hg & Hn & Hk).
    destruct (group_loop_get depth files' key) as (g' & Hg' & Hn' & Hk').
    exists g, g'. repeat (split; [assumption|]).
    rewrite Hk, Hk'. cbv zeta.
    rewrite (existsb_perm _ _ _ Hperm), (sumZ_filter_perm _ _ _ Hperm).
    reflexivity. }
  destruct (Hget EmptyString) as (g & g' & Hg & Hg' & Hn & Hn' & _).
  exists g, g'. split; [exact Hg|]. split; [exact Hg'|].
  assert (Hall : forall key, dict_get key g = dict_get key g').
  { intros key. destruct (Hget key) as (g0 & g0' & E & E' & _ & _ & H).
    congruence. }
  split; [|exact Hall].
  apply NoDup_Permutation; auto. intros k.
  specialize (Hall k).
  destruct (dict_get k g) as [v|] eqn:E; destruct (dict_get k g') as [v'|] eqn:E';
    try discriminate.
  - split; intros _; eapply dict_get_Some_key; eauto.
  - apply dict_get_None in E, E'. tauto.
Qed.

Lemma group_order_invariant_witness :
  exists grouped grouped',
    group_by_depth_and_sum_size
      [mkEntry "a/x" false 1; mkEntry "b/y" false 2] 1 = Ok grouped
    /\ group_by_depth_and_sum_size
         [mkEntry "b/y" false 2; mkEntry "a/x" false 1] 1 = Ok grouped'
    /\ Permutation (keys grouped) (keys grouped')
    /\ forall key, dict_get key grouped = dict_get key grouped'.
Proof. apply group_order_invariant. apply perm_swap. Defined.

(** ** Unit conversion *)

Lemma unit_divisor_pos unit : 0 < unit_divisor unit.
Proof.
  rewrite unit_divisor_cases.
  destruct (String.eqb _ "kb"); [reflexivity|].
  destruct (String.eqb _ "mb"); [reflexivity|].
  destruct (String.eqb _ "gb"); reflexivity.
Qed.

Lemma binary64_exact_quotient n k :
  Z.abs n < 2 ^ 53 -> 0 <= k <= 1074 ->
  binary64_exact (inject_Z n / inject_Z (2 ^ k)).
Proof.
  intros Hn Hk. exists n, (- k). split; [exact Hn|]. split; [lia|].
  rewrite Qpower_opp. change 2%Q with (inject_Z 2).
  rewrite <- Zpower_Qpower by lia. reflexivity.
Qed.

Lemma unit_divisor_power unit :
  exists k, 0 <= k <= 30 /\ unit_divisor unit = 2 ^ k.
Proof.
  rewrite unit_divisor_cases.
  destruct (String.eqb _ "kb"); [exists 10; split; [lia|reflexivity]|].
  destruct (String.eqb _ "mb"); [exists 20; split; [lia|reflexivity]|].
  destruct (String.eqb _ "gb"); [exists 30; split; [lia|reflexivity]|].
  exists 0. split; [lia|reflexivity].
Qed.

Lemma convert_size_binary64 size_bytes unit :
  Z.abs size_bytes < 2 ^ 53 -> binary64_exact (convert_size size_bytes unit).
Proof.
  intros Hn. unfold convert_size.
  destruct (unit_divisor_power unit) as (k & Hk & ->).
  apply binary64_exact_quotient; [exact Hn|lia].
Qed.

(** X4: for a size below 2^53 in absolute value the quotient by the unit's
    divisor is a binary64 value, so the float that the true division
    returns is the quotient itself: multiplied back by the divisor it gives
    the byte count again, and the conversion is monotone in the size. *)
Theorem convert_size_round_trip (size_bytes size_bytes' : Z) (unit : string) :
  Z.abs size_bytes < 2 ^ 53 -> Z.abs size_bytes' < 2 ^ 53 ->
  binary64_exact (convert_size size_bytes unit)
  /\ binary64_exact (convert_size size_bytes' unit)
  /\ (convert_size size_bytes unit * inject_Z (unit_divisor unit)
      == inject_Z size_bytes)%Q
  /\ (size_bytes <= size_bytes' ->
      (convert_size size_bytes unit <= convert_size size_bytes' unit)%Q).
Proof.
  intros Hn Hn'.
  pose proof (unit_divisor_pos unit) as Hpos.
  assert (Hq : (0 < inject_Z (unit_divisor unit))%Q).
  { change 0%Q with (inject_Z 0). rewrite <- Zlt_Qlt. exact Hpos. }
  split; [now apply convert_size_binary64|].
  split; [now apply convert_size_binary64|].
  split.
  - unfold convert_size. rewrite Qmult_comm. apply Qmult_div_r.
    intros H. rewrite H in Hq. now apply Qlt_irrefl in Hq.
  - intros Hle. unfold convert_size, Qdiv.
    apply Qmult_le_compat_r.
    + now rewrite <- Zle_Qle.
    + apply Qlt_le_weak. now apply Qinv_lt_0_compat.
Qed.

Lemma convert_size_round_trip_witness :
  binary64_exact (convert_size 1000 "MB")
  /\ binary64_exact (convert_size 5000 "MB")
  /\ (convert_size 1000 "MB" * inject_Z (unit_divisor "MB")
      == inject_Z 1000)%Q
  /\ (1000 <= 5000 ->
      (convert_size 1000 "MB" <= convert_size 5000 "MB")%Q).
Proof. apply convert_size_round_trip; reflexivity. Defined.


(** ** Tree builder *)

Lemma build_tree_with_cleaned fallback entries :
  exists c,
    build_tree_with fallback entries = Ok (PDict c)
    /\ cleaned (insert_entries entries []) c.
Proof.
  unfold build_tree_with.
  destruct (raw_tree_insert fallback entries) as [-> Hwf]. cbn [bind].
  eapply clean_node_wf; eassumption.
Qed.

Lemma clean_node_within_eq frames items :
  clean_node_within (S frames) (PDict items)
  = clean_items_within frames items [].
Proof.
  cbn [clean_node_within]. generalize (@nil (string * pyval)) as acc.
  induction items as [|[k v] rest IH]; intros acc; [reflexivity|].
  cbn [clean_items_within].
  destruct v as [z|b|vitems]; try apply IH.
  destruct (dict_get "_children" vitems) as [c|]; [|apply IH].
  destruct (clean_node_within frames c) as [[sub|e]|]; try reflexivity.
  destruct (bind _ _) as [sub'|e]; [apply IH|reflexivity].
Qed.

Lemma clean_items_node k s cs b rest acc :
  clean_items ((k, mk_node s cs b) :: rest) acc
  = (sub <- clean_node (PDict cs) ;;
     sub <- py_setitem sub "_size" (PInt s) ;;
     sub <- py_setitem sub "_isdir" (PBool b) ;;
     clean_items rest (dict_set k sub acc)).
Proof.
  cbn [clean_items]. unfold clean_value, mk_node.
  cbn [dict_get dict_item String.eqb Ascii.eqb Bool.eqb bind].
  destruct (clean_node (PDict cs)) as [sub|e]; cbn [bind]; [|reflexivity].
  destruct (py_setitem sub "_size" (PInt s)) as [sub'|e]; cbn [bind];
    [|reflexivity].
  reflexivity.
Qed.

Lemma clean_items_within_node frames k s cs b rest acc :
  clean_items_within frames ((k, mk_node s cs b) :: rest) acc
  = match clean_node_within frames (PDict cs) with
    | RecursionError => RecursionError
    | Within (Raise e) => Within (Raise e)
    | Within (Ok sub) =>
        match (sub <- py_setitem sub "_size" (PInt s) ;;
               py_setitem sub "_isdir" (PBool b)) with
        | Ok sub => clean_items_within frames rest (dict_set k sub acc)
        | Raise e => Within (Raise e)
        end
    end.
Proof.
  cbn [clean_items_within]. unfold mk_node.
  cbn [dict_get dict_item String.eqb Ascii.eqb Bool.eqb bind].
  destruct (clean_node_within frames (PDict cs)) as [[sub|e]|];
    reflexivity.
Qed.

(** Within any limit the loop of [clean_node] is stopped by the limit or
    does what it does without one. *)
Lemma clean_items_within_cases ok t :
  wf_tree ok t ->
  forall frames acc,
    clean_items_within frames t acc = RecursionError
    \/ clean_items_within frames t acc = Within (clean_items t acc).
Proof.
  induction 1 as [|k s cs b rest Hok Hk Hcs IHcs Hrest IHrest];
    intros frames acc; [now right|].
  rewrite clean_items_within_node, clean_items_node.
  destruct frames as [|f]; [now left|].
  rewrite clean_node_within_eq, clean_node_eq.
  destruct (IHcs f []) as [->| ->]; [now left|].
  destruct (clean_items cs []) as [sub|e]; cbn [bind]; [|now right].
  destruct (py_setitem sub "_size" (PInt s)) as [sub'|e]; cbn [bind];
    [|now right].
  destruct (py_setitem sub' "_isdir" (PBool b)) as [sub''|e]; cbn [bind];
    [|now right].
  apply IHrest.
Qed.

Lemma node_at_head k v rest p :
  ~ In k (keys rest) -> node_at rest p <> None ->
  node_at ((k, v) :: rest) p = node_at rest p.
Proof.
  intros Hk Hp. destruct p as [|k' p']; [reflexivity|].
  cbn [node_at dict_get] in *.
  destruct (String.eqb_spec k k') as [<-|Hne]; [|reflexivity].
  apply dict_get_None in Hk. rewrite Hk in Hp. now contradiction Hp.
Qed.

Lemma node_at_child k s cs b rest p :
  p <> [] ->
  node_at ((k, mk_node s cs b) :: rest) (k :: p) = node_at cs p.
Proof.
  intros Hp. destruct p as [|k' p']; [contradiction|].
  cbn [node_at dict_get]. rewrite String.eqb_refl. reflexivity.
Qed.

(** The limit does not stop the loop on a tree whose paths all have at most
    [frames] names. *)
Lemma clean_items_within_shallow ok t :
  wf_tree ok t ->
  forall frames acc,
    (forall p, node_at t p <> None -> (List.length p <= frames)%nat) ->
    clean_items_within frames t acc = Within (clean_items t acc).
Proof.
  induction 1 as [|k s cs b rest Hok Hk Hcs IHcs Hrest IHrest];
    intros frames acc Hshallow; [reflexivity|].
  rewrite clean_items_within_node, clean_items_node.
  destruct frames as [|f].
  - exfalso. specialize (Hshallow [k]).
    cbn [node_at dict_get List.length] in Hshallow.
    rewrite String.eqb_refl in Hshallow.
    assert (1 <= 0)%nat by (apply Hshallow; discriminate). lia.
  - rewrite clean_node_within_eq, clean_node_eq, IHcs.
    + destruct (clean_items cs []) as [sub|e]; cbn [bind]; [|reflexivity].
      destruct (py_setitem sub "_size" (PInt s)) as [sub'|e]; cbn [bind];
        [|reflexivity].
      destruct (py_setitem sub' "_isdir" (PBool b)) as [sub''|e];
        cbn [bind]; [|reflexivity].
      apply IHrest. intros p Hp. apply Hshallow.
      now rewrite node_at_head.
    + intros p Hp.
      assert (Hne : p <> []) by (intros ->; now apply Hp).
      specialize (Hshallow (k :: p)).
      rewrite (node_at_child k s cs b rest p Hne) in Hshallow.
      specialize (Hshallow Hp). cbn [List.length] in Hshallow. lia.
Qed.

(** It stops the loop on a tree with a path of more than [frames] names. *)
Lemma clean_items_within_deep ok t :
  wf_tree ok t ->
  forall frames acc p,
    node_at t p <> None -> (frames < List.length p)%nat ->
    clean_items_within frames t acc = RecursionError.
Proof.
  induction 1 as [|k s cs b rest Hok Hk Hcs IHcs Hrest IHrest];
    intros frames acc p Hp Hlen.
  - now rewrite node_at_nil in Hp.
  - rewrite clean_items_within_node.
    destruct frames as [|f]; [reflexivity|].
    rewrite clean_node_within_eq.
    destruct p as [|k' p']; [now contradiction Hp|].
    destruct (String.eqb_spec k k') as [<-|Hne].
    + destruct p' as [|k'' p'']; [cbn [List.length] in Hlen; lia|].
      rewrite node_at_child in Hp by discriminate.
      rewrite (IHcs f [] (k'' :: p'') Hp); [reflexivity|].
      cbn [List.length] in *. lia.
    + assert (Hp' : node_at rest (k' :: p') <> None).
      { cbn [node_at dict_get] in Hp |- *.
        destruct (String.eqb_spec k k'); [contradiction|exact Hp]. }
      destruct (clean_items_within_cases ok cs Hcs f []) as [->| ->];
        [reflexivity|].
      destruct (clean_items cs []) as [sub|e] eqn:E.
      * destruct (clean_items_wf ok cs Hcs) as (cc & _ & Ecc).
        rewrite (Ecc []) in E by (intros; simpl; tauto).
        injection E as <-. cbn [py_setitem bind].
        now apply (IHrest (S f) _ (k' :: p')).
      * destruct (clean_items_wf ok cs Hcs) as (cc & _ & Ecc).
        rewrite (Ecc []) in E by (intros; simpl; tauto). discriminate.
Qed.

Lemma is_prefix_length p l :
  is_prefix p l = true -> (List.length p <= List.length l)%nat.
Proof.
  revert l. induction p as [|x p IH]; intros [|y l]; simpl; try lia;
    try discriminate.
  intros H. apply andb_true_iff in H. destruct H as [_ H].
  apply IH in H. lia.
Qed.

Lemma path_levels_bound entries e :
  In e entries -> (List.length (segments e) <= path_levels entries)%nat.
Proof.
  intros Hin. unfold path_levels.
  set (lengths := map (fun e => List.length (segments e)) entries).
  assert (H : Forall (fun n => (n <= list_max lengths)%nat) lengths)
    by (apply list_max_le; lia).
  rewrite Forall_forall in H. apply H.
  exact (in_map (fun e0 => List.length (segments e0)) entries e Hin).
Qed.

Lemma path_levels_reached entries :
  (0 < path_levels entries)%nat ->
  exists e, In e entries /\ List.length (segments e) = path_levels entries.
Proof.
  unfold path_levels, list_max.
  induction entries as [|e l IH]; cbn [map fold_right]; [lia|].
  intros Hpos.
  destruct (Nat.max_spec (List.length (segments e))
              (fold_right Nat.max 0%nat
                 (map (fun e => List.length (segments e)) l)))
    as [[Hlt ->]|[Hle ->]].
  - destruct IH as (e' & Hin & He'); [lia|].
    exists e'. split; [now right|exact He'].
  - exists e. split; [now left|reflexivity].
Qed.

(** X5: [build_tree_structure] raises no [KeyError], [TypeError] or
    [AttributeError], whatever the entries are; only the recursion limit
    can stop it.  [clean_node] nests one call more than the longest path
    has names: when the limit leaves room for [frames] nested calls, the
    function raises [RecursionError] if some path has [frames] names or
    more, and otherwise returns a dictionary with distinct keys, the one
    computed by [build_tree_structure], which leaves the limit out. *)
Theorem build_tree_total (frames : nat) (entries : list Entry) :
  match build_tree_structure_within frames entries with
  | Within outcome =>
      (path_levels entries < frames)%nat
      /\ outcome = build_tree_structure entries
      /\ exists c, outcome = Ok (PDict c) /\ NoDup (keys c)
  | RecursionError => (frames <= path_levels entries)%nat
  end.
Proof.
  destruct (build_tree_cleaned entries) as (c & E & Hc).
  assert (Hnd : NoDup (keys c)).
  { rewrite (cleaned_keys _ _ Hc). apply (wf_tree_keys any_key).
    apply wf_insert_entries; [constructor|apply all_entries_any_key]. }
  assert (Hlimit : build_tree_structure_within frames entries
                   = if (path_levels entries <? frames)%nat
                     then Within (Ok (PDict c)) else RecursionError).
  { pose proof E as E'.
    unfold build_tree_structure, build_tree_with in E'.
    unfold build_tree_structure_within.
    destruct (raw_tree_insert node_literal entries) as [Eraw Hwf].
    rewrite Eraw in *. cbn [bind] in E'.
    set (t := insert_entries entries []) in *.
    destruct frames as [|f]; [reflexivity|].
    rewrite clean_node_within_eq.
    destruct (Nat.ltb_spec (path_levels entries) (S f)) as [Hlt|Hge].
    - rewrite (clean_items_within_shallow any_key t Hwf).
      + now rewrite <- clean_node_eq, E'.
      + intros p Hp.
        assert (Hne : p <> []) by (intros ->; now apply Hp).
        destruct (node_at_entries entries p Hne) as (H1 & _).
        fold t in H1. destruct (node_at t p); [|now contradiction Hp].
        symmetry in H1. apply existsb_exists in H1.
        destruct H1 as (e & Hin & Hu). apply is_prefix_length in Hu.
        pose proof (path_levels_bound entries e Hin). lia.
    - destruct (path_levels_reached entries) as (e & Hin & He); [lia|].
      assert (Hne : segments e <> []).
      { intros H0. rewrite H0 in He. cbn in He. lia. }
      destruct (node_at_entries entries (segments e) Hne) as (H1 & _).
      fold t in H1.
      rewrite (in_entries_under entries e _ Hin eq_refl) in H1.
      apply (clean_items_within_deep any_key t Hwf f [] (segments e)).
      + destruct (node_at t (segments e)); discriminate.
      + lia. }
  rewrite Hlimit.
  destruct (Nat.ltb_spec (path_levels entries) frames) as [Hlt|Hge].
  - split; [exact Hlt|]. split; [now rewrite E|]. exists c. now split.
  - exact Hge.
Qed.

(** A file three levels down: [clean_node] nests four calls. *)
Example build_tree_within_limit :
  build_tree_structure_within 3 [mkEntry "a/b/c" false 1] = RecursionError
  /\ build_tree_structure_within 4 [mkEntry "a/b/c" false 1]
     = Within (build_tree_structure [mkEntry "a/b/c" false 1]).
Proof. split; reflexivity. Qed.

Lemma insert_entries_app l1 l2 t :
  insert_entries (l1 ++ l2) t = insert_entries l2 (insert_entries l1 t).
Proof. unfold insert_entries. apply fold_left_app. Qed.

Lemma build_tree_of_insert entries entries' :
  insert_entries entries [] = insert_entries entries' [] ->
  build_tree_structure entries = build_tree_structure entries'.
Proof.
  intros H. unfold build_tree_structure, build_tree_with.
  destruct (raw_tree_insert node_literal entries) as [-> _].
  destruct (raw_tree_insert node_literal entries') as [-> _].
  now rewrite H.
Qed.

(** X6: the tree depends on an entry only through the names on its path
    (empty parts and trailing slashes dropped), its directory flag and, for
    a file, its size: the size of a directory entry is not read. *)
Theorem build_tree_entry_normal (before after : list Entry) (e e' : Entry) :
  segments e = segments e' ->
  IsDir e = IsDir e' ->
  (IsDir e = false -> Size e = Size e') ->
  build_tree_structure (before ++ e :: after)
  = build_tree_structure (before ++ e' :: after).
Proof.
  intros Hseg Hdir Hsize. apply build_tree_of_insert.
  rewrite !insert_entries_app. cbn [insert_entries fold_left].
  f_equal. unfold insert_entry, entry_size. rewrite Hseg, <- Hdir.
  destruct (IsDir e); cbn [negb]; [reflexivity|].
  now rewrite Hsize.
Qed.

Lemma build_tree_entry_normal_witness :
  build_tree_structure
    [mkEntry "a" true 0; mkEntry "/a//b/" true (-1); mkEntry "a/b/f" false 3]
  = build_tree_structure
      [mkEntry "a" true 0; mkEntry "a/b" true 4096; mkEntry "a/b/f" false 3].
Proof.
  apply (build_tree_entry_normal [mkEntry "a" true 0]
           [mkEntry "a/b/f" false 3]
           (mkEntry "/a//b/" true (-1)) (mkEntry "a/b" true 4096));
    [reflexivity|reflexivity|discriminate].
Defined.

Lemma rstrip_only_char c s :
  only_char c s = true -> PyStr.rstrip c s = EmptyString.
Proof.
  induction s as [|a r IH]; [reflexivity|]. cbn.
  destruct (Ascii.eqb a c); [|discriminate]. cbn. intros H.
  now rewrite (IH H).
Qed.

(** X7: an entry whose path is empty or made of slashes only adds nothing
    to the tree, wherever it stands. *)
Theorem build_tree_ignores_root (before after : list Entry) (e : Entry) :
  only_char "/" (Path e) = true ->
  build_tree_structure (before ++ e :: after)
  = build_tree_structure (before ++ after).
Proof.
  intros H. apply build_tree_of_insert.
  rewrite !insert_entries_app. cbn [insert_entries fold_left].
  f_equal. unfold insert_entry, segments, parts_of.
  now rewrite (rstrip_only_char _ _ H).
Qed.

Lemma build_tree_ignores_root_witness :
  build_tree_structure
    [mkEntry "a" false 1; mkEntry "//" false 500; mkEntry "b" true 0]
  = build_tree_structure [mkEntry "a" false 1; mkEntry "b" true 0].
Proof.
  apply (build_tree_ignores_root [mkEntry "a" false 1] [mkEntry "b" true 0]
           (mkEntry "//" false 500)).
  reflexivity.
Defined.

Lemma tree_get_none_of_node_at p : forall t c,
  cleaned t c -> Forall (fun k => reserved k = false) (tl p) ->
  p <> [] -> node_at t p = None -> tree_get (PDict c) p = None.
Proof.
  induction p as [|k p IH]; intros t c Hc Hp Hne Hv; [congruence|].
  pose proof (cleaned_get t c k Hc) as G.
  destruct p as [|k' p'].
  - rewrite node_at_single in Hv. rewrite Hv in G.
    cbn [tree_get]. now rewrite G.
  - rewrite node_at_cons in Hv. unfold child_or_new in Hv.
    change (tree_get (PDict c) (k :: k' :: p'))
      with (match dict_get k c with
            | Some x => tree_get x (k' :: p')
            | None => None
            end).
    destruct (dict_get k t) as [x|] eqn:E.
    + destruct G as (s & cs & b & cc & -> & Hcc & G).
      cbn [tl] in Hp. inversion Hp as [|? ? Hk' Hp']; subst.
      rewrite G, tree_get_cleaned_node by assumption.
      apply (IH cs cc Hcc Hp'); [discriminate|exact Hv].
    + now rewrite G.
Qed.

(** X8: which nodes the returned tree has, and which are flagged: there is
    a node at a path exactly when some entry lies at or beneath it; the node
    is flagged as a directory exactly when a directory entry has that very
    path -- a directory that only occurs on the way to other entries is not
    flagged.  (For paths with no name [_size] or [_isdir] below the top
    level.) *)
Theorem tree_nodes_and_flags (entries : list Entry) (p : list string) :
  p <> [] ->
  Forall (fun k => reserved k = false) (tl p) ->
  exists tree,
    build_tree_structure entries = Ok tree
    /\ match tree_get tree p with
       | Some node =>
           existsb (under p) entries = true
           /\ exists d,
               node = PDict d
               /\ dict_get "_isdir" d = Some (PBool (marked_dir entries p))
               /\ dict_get "_size" d = Some (PInt (subtree_size entries p))
       | None => existsb (under p) entries = false
       end.
Proof.
  intros Hp Hres.
  destruct (build_tree_cleaned entries) as (c & E & Hc).
  exists (PDict c). split; [exact E|].
  destruct (node_at_entries entries p Hp) as (H1 & H2 & H3 & _).
  destruct (node_at (insert_entries entries []) p) as [v|] eqn:Hv.
  - destruct (tree_get_of_node_at p _ c v Hc Hres Hv)
      as (s & cs & b & cc & -> & Hcc & ->).
    cbn in H2, H3. subst s b. split; [now symmetry|].
    eexists. split; [reflexivity|]. now rewrite !dict_get_cleaned_node.
  - rewrite (tree_get_none_of_node_at p _ c Hc Hres Hp Hv). now symmetry.
Qed.

Lemma tree_nodes_and_flags_witness :
  exists tree,
    build_tree_structure [mkEntry "a/c/f2.txt" false 50] = Ok tree
    /\ match tree_get tree ["a"; "c"] with
       | Some node =>
           existsb (under ["a"; "c"]) [mkEntry "a/c/f2.txt" false 50] = true
           /\ exists d,
               node = PDict d
               /\ dict_get "_isdir" d
                  = Some (PBool (marked_dir [mkEntry "a/c/f2.txt" false 50]
                                            ["a"; "c"]))
               /\ dict_get "_size" d
                  = Some (PInt (subtree_size [mkEntry "a/c/f2.txt" false 50]
                                             ["a"; "c"]))
       | None => existsb (under ["a"; "c"]) [mkEntry "a/c/f2.txt" false 50]
                 = false
       end.
Proof.
  apply tree_nodes_and_flags; [discriminate|repeat constructor].
Defined.

Lemma tree_get_app t p q :
  tree_get t (p ++ q)
  = match tree_get t p with Some v => tree_get v q | None => None end.
Proof.
  revert t. induction p as [|k p IH]; intros t; [reflexivity|].
  cbn [app tree_get]. destruct t as [z|b|d]; try reflexivity.
  destruct (dict_get k d); [apply IH|reflexivity].
Qed.

(** X9: in the returned tree every node below the top holds an integer
    under [_size] and a boolean under [_isdir]: these two keys never lead to
    a node, so a child with one of these names is not in the returned
    tree. *)
Theorem reserved_keys_hold_fields (entries : list Entry) (tree : pyval)
        (p : list string) (d : odict pyval) :
  build_tree_structure entries = Ok tree ->
  p <> [] ->
  tree_get tree p = Some (PDict d) ->
  exists size flag,
    tree_get tree (p ++ ["_size"]) = Some (PInt size)
    /\ tree_get tree (p ++ ["_isdir"]) = Some (PBool flag).
Proof.
  intros Hbuild Hp Hget.
  destruct (build_tree_cleaned entries) as (c & Ec & Hc).
  rewrite Ec in Hbuild. injection Hbuild as <-.
  destruct (node_at_of_tree_get p _ c d Hc Hp Hget)
    as (s & cs & b & cc & _ & _ & Hd).
  destruct (cleaned_node_fields _ _ _ _ Hd) as [Hs Hb].
  exists s, b. rewrite !tree_get_app, Hget. cbn [tree_get].
  now rewrite Hs, Hb.
Qed.

Lemma reserved_keys_hold_fields_witness :
  exists size flag,
    tree_get (PDict [("a", PDict [("_size", PInt 5); ("_isdir", PBool false)])])
             (["a"] ++ ["_size"]) = Some (PInt size)
    /\ tree_get (PDict [("a", PDict [("_size", PInt 5);
                                     ("_isdir", PBool false)])])
                (["a"] ++ ["_isdir"]) = Some (PBool flag).
Proof.
  apply (reserved_keys_hold_fields
           [mkEntry "a/_size" false 5; mkEntry "a/_size" true 0] _ ["a"]
           [("_size", PInt 5); ("_isdir", PBool false)]);
    [reflexivity|discriminate|reflexivity].
Defined.

Lemma sumZ_cons x l : sumZ (x :: l) = x + sumZ l.
Proof. reflexivity. Qed.

Lemma nodes_size_insert_entries entries : forall t,
  wf_tree any_key t ->
  nodes_size (insert_entries entries t)
  = nodes_size t
    + sumZ (map (fun e => if is_nil (segments e) then 0 else entry_size e)
                entries).
Proof.
  induction entries as [|e l IH]; intros t Ht; cbn [insert_entries fold_left].
  - cbn. lia.
  - fold (insert_entries l (insert_entry t e)). rewrite IH.
    + unfold insert_entry.
      rewrite (nodes_size_insert any_key) by (auto using entry_size_dir).
      cbn [map]. rewrite sumZ_cons. lia.
    + unfold insert_entry. apply wf_insert_path; [exact Ht|apply all_any_key].
Qed.

Lemma sum_entry_sizes entries :
  sumZ (map (fun e => if is_nil (segments e) then 0 else entry_size e) entries)
  = sumZ (map Size
              (filter (fun e => is_file e && negb (is_nil (segments e)))
                      entries)).
Proof.
  induction entries as [|e l IH]; [reflexivity|].
  cbn [map filter]. rewrite entry_size_file.
  destruct (is_file e), (is_nil (segments e)); cbn [andb negb map];
    rewrite ?sumZ_cons; lia.
Qed.

(** X10: the sizes of the top-level nodes of the returned tree add up to
    the sizes of the file entries with a path that is not empty. *)
Theorem tree_sizes_conserved (entries : list Entry) :
  exists c,
    build_tree_structure entries = Ok (PDict c)
    /\ sumZ (map (fun kv => node_size (snd kv)) c)
       = sumZ (map Size
                   (filter (fun e => is_file e && negb (is_nil (segments e)))
                           entries)).
Proof.
  destruct (build_tree_cleaned entries) as (c & E & Hc).
  exists c. split; [exact E|].
  rewrite (cleaned_nodes_size _ _ Hc).
  rewrite nodes_size_insert_entries by constructor.
  change (nodes_size []) with 0. rewrite Z.add_0_l.
  apply sum_entry_sizes.
Qed.

(** ** Tree renderer *)

Section Stability.
Context {A K : Type}.
Variable ltb : K -> K -> bool.
Variable key : A -> K.
Variable same : K -> K -> bool.

Hypothesis same_not_below :
  forall a b k, same a k = true -> same b k = true -> ltb a b = false.

Lemma insert_by_stable k x l :
  filter (fun y => same (key y) k) (insert_by ltb key x l)
  = filter (fun y => same (key y) k) (x :: l).
Proof.
  induction l as [|y l IH]; [reflexivity|].
  cbn [insert_by]. destruct (ltb (key y) (key x)) eqn:E; [|reflexivity].
  cbn [filter] in *. rewrite IH.
  destruct (same (key x) k) eqn:Ex; [|reflexivity].
  destruct (same (key y) k) eqn:Ey; [|reflexivity].
  rewrite (same_not_below _ _ _ Ey Ex) in E. discriminate.
Qed.

Lemma sort_by_stable k l :
  filter (fun y => same (key y) k) (sort_by ltb key l)
  = filter (fun y => same (key y) k) l.
Proof.
  induction l as [|x l IH]; [reflexivity|].
  cbn [sort_by fold_right]. fold (sort_by ltb key l).
  rewrite insert_by_stable. cbn [filter]. now rewrite IH.
Qed.
End Stability.

Lemma string_same_not_below a b k :
  String.eqb a k = true -> String.eqb b k = true -> String.ltb a b = false.
Proof.
  intros Ha Hb. apply String.eqb_eq in Ha, Hb. subst.
  unfold String.ltb.
  pose proof (proj2 (OrderedTypeEx.String_as_OT.cmp_eq k k) eq_refl) as H.
  unfold OrderedTypeEx.String_as_OT.cmp in H. now rewrite H.
Qed.

Lemma number_same_not_below a b k :
  number_eqb a k = true -> number_eqb b k = true -> number_ltb a b = false.
Proof.
  destruct a, b, k; cbn; try discriminate; try reflexivity.
  intros Ha Hb. apply Z.eqb_eq in Ha, Hb. subst. apply Z.ltb_irrefl.
Qed.

(** X12: the sorts are stable: the files whose lowercased names are equal,
    and the directories with the same sort key (the same number at depth 1,
    among them all the names without leading digits; the same lowercased
    name at the other depths), stay in the order of the node's items. *)
Theorem sorts_are_stable (current_depth : Z) (dirs files : list item)
        (name : string) :
  filter (fun it => String.eqb (lower_name it) (PyStr.lower name))
         (sort_files files)
  = filter (fun it => String.eqb (lower_name it) (PyStr.lower name)) files
  /\ (if current_depth =? 1
      then filter (fun it => number_eqb (number_of it) (extract_number name))
                  (sort_dirs current_depth dirs)
           = filter (fun it => number_eqb (number_of it) (extract_number name))
                    dirs
      else filter (fun it => String.eqb (lower_name it) (PyStr.lower name))
                  (sort_dirs current_depth dirs)
           = filter (fun it => String.eqb (lower_name it) (PyStr.lower name))
                    dirs).
Proof.
  split.
  - apply (sort_by_stable String.ltb lower_name String.eqb
             string_same_not_below).
  - unfold sort_dirs. destruct (current_depth =? 1).
    + apply (sort_by_stable number_ltb number_of number_eqb
               number_same_not_below).
    + apply (sort_by_stable String.ltb lower_name String.eqb
               string_same_not_below).
Qed.

Lemma insert_by_map {A B K : Type} (ltb : K -> K -> bool) (key : B -> K)
      (f : A -> B) x l :
  map f (insert_by ltb (fun a => key (f a)) x l)
  = insert_by ltb key (f x) (map f l).
Proof.
  induction l as [|y l IH]; [reflexivity|]. cbn.
  destruct (ltb (key (f y)) (key (f x))); cbn; [now rewrite IH|reflexivity].
Qed.

Lemma sort_by_map {A B K : Type} (ltb : K -> K -> bool) (key : B -> K)
      (f : A -> B) l :
  map f (sort_by ltb (fun a => key (f a)) l) = sort_by ltb key (map f l).
Proof.
  induction l as [|x l IH]; [reflexivity|].
  cbn [sort_by fold_right map].
  fold (sort_by ltb (fun a => key (f a)) l). fold (sort_by ltb key (map f l)).
  now rewrite insert_by_map, IH.
Qed.

Lemma map_item_name_rendered items d :
  map item_name (rendered items d) = map fst items.
Proof. unfold rendered. rewrite map_map. reflexivity. Qed.

Lemma same_for_renderer_dirs items items' :
  Forall2 same_for_renderer items items' ->
  dir_children items = dir_children items'.
Proof.
  unfold dir_children.
  induction 1 as [|[k v] [k' v'] l l' [Hk Hv] _ IH]; [reflexivity|].
  cbn [filter fst snd] in *. subst k'. rewrite IH.
  destruct (is_dir_value v) eqn:E.
  - subst v'. now rewrite E.
  - now rewrite Hv, andb_false_r.
Qed.

Lemma same_for_renderer_files items items' :
  Forall2 same_for_renderer items items' ->
  map fst (file_children items) = map fst (file_children items').
Proof.
  unfold file_children.
  induction 1 as [|[k v] [k' v'] l l' [Hk Hv] _ IH]; [reflexivity|].
  cbn [filter fst snd] in *. subst k'.
  destruct (is_dir_value v) eqn:E.
  - subst v'. rewrite E. cbn [negb]. rewrite andb_false_r. exact IH.
  - rewrite Hv. destruct (negb (reserved k)); cbn [andb negb map fst];
      [now rewrite IH|exact IH].
Qed.

Lemma emit_files_names files files' html :
  map item_name files = map item_name files' ->
  emit_files (sort_files files) html = emit_files (sort_files files') html.
Proof.
  intros H. rewrite !emit_files_eq. f_equal. f_equal.
  rewrite <- !(map_map item_name file_li). f_equal.
  unfold sort_files, lower_name.
  rewrite !(sort_by_map String.ltb PyStr.lower item_name). now rewrite H.
Qed.

(** X13: a child that is not flagged as a directory is rendered as a leaf
    by its name alone: whatever is stored under it (its size, its own
    children) has no effect on the markup. *)
Theorem unflagged_children_are_leaves (items items' : odict pyval)
        (current_depth : Z) :
  Forall2 same_for_renderer items items' ->
  generate_tree_html (PDict items) current_depth
  = generate_tree_html (PDict items') current_depth.
Proof.
  intros H. rewrite !generate_tree_html_eq, !split_items_rendered.
  rewrite (same_for_renderer_dirs _ _ H).
  destruct (emit_dirs _ _) as [html|e]; cbn [bind]; [|reflexivity].
  f_equal. f_equal. apply emit_files_names.
  rewrite !map_item_name_rendered. now apply same_for_renderer_files.
Qed.

Lemma unflagged_children_are_leaves_witness :
  generate_tree_html
    (PDict [("c", PDict [("f2.txt", PDict [("_size", PInt 50);
                                           ("_isdir", PBool false)]);
                         ("_size", PInt 50); ("_isdir", PBool false)])]) 1
  = generate_tree_html
      (PDict [("c", PDict [("_size", PInt 0); ("_isdir", PBool false)])]) 1.
Proof.
  apply unflagged_children_are_leaves.
  repeat constructor.
Defined.

Lemma leading_digits_all s : all_digits (leading_digits s) = true.
Proof.
  induction s as [|c r IH]; [reflexivity|]. cbn.
  destruct (PyStr.is_digit c) eqn:E; [|reflexivity]. cbn. now rewrite E.
Qed.

Lemma leading_digits_app ds rest :
  all_digits ds = true -> starts_with_digit rest = false ->
  leading_digits (ds ++ rest) = ds.
Proof.
  intros Hd Hr. induction ds as [|c r IH]; cbn in *.
  - destruct rest as [|c r]; [reflexivity|]. cbn in *. now rewrite Hr.
  - apply andb_true_iff in Hd. destruct Hd as [Hc Hd].
    rewrite Hc. now rewrite IH.
Qed.

Lemma digit_value c :
  PyStr.is_digit c = true -> 0 <= Z.of_N (N_of_ascii c) - 48 <= 9.
Proof.
  unfold PyStr.is_digit. intros H. apply andb_true_iff in H.
  destruct H as [H1 H2]. apply N.leb_le in H1, H2. lia.
Qed.

Lemma int_of_digits_nonneg ds : forall acc,
  all_digits ds = true -> 0 <= acc -> 0 <= int_of_digits acc ds.
Proof.
  induction ds as [|c r IH]; intros acc Hd Hacc;
    cbn [all_digits int_of_digits] in *; [exact Hacc|].
  apply andb_true_iff in Hd. destruct Hd as [Hc Hd].
  apply IH; [exact Hd|]. pose proof (digit_value c Hc). lia.
Qed.

(** X14: [extract_number] gives infinity exactly for the names that do not
    start with a digit, and otherwise a number that is not negative and
    that only the leading digits decide: what follows them is not read. *)
Theorem extract_number_leading_digits (name : string) :
  (extract_number name = Inf <-> starts_with_digit name = false)
  /\ (forall n, extract_number name = Int n -> 0 <= n)
  /\ (forall ds rest,
         name = (ds ++ rest)%string ->
         all_digits ds = true -> ds <> EmptyString ->
         starts_with_digit rest = false ->
         extract_number name = Int (int_of_digits 0 ds)
         /\ extract_number name = extract_number ds).
Proof.
  split; [|split].
  - unfold extract_number. destruct name as [|c r]; cbn; [tauto|].
    destruct (PyStr.is_digit c); split; congruence.
  - unfold extract_number. intros n.
    pose proof (leading_digits_all name) as Hall.
    destruct (leading_digits name) as [|c r] eqn:E; [discriminate|].
    intros [= <-]. change (0 <= int_of_digits 0 (String c r)).
    apply int_of_digits_nonneg; [exact Hall|lia].
  - intros ds rest -> Hd Hne Hr. unfold extract_number.
    rewrite (leading_digits_app ds rest Hd Hr).
    replace (leading_digits ds) with ds.
    + destruct ds; [congruence|auto].
    + rewrite <- (leading_digits_app ds EmptyString Hd eq_refl) at 1.
      f_equal. clear. induction ds as [|c r IH]; cbn; congruence.
Qed.

Lemma extract_number_leading_digits_witness :
  extract_number "007_bond" = Int (int_of_digits 0 "007")
  /\ extract_number "007_bond" = extract_number "007".
Proof.
  apply (proj2 (proj2 (extract_number_leading_digits "007_bond"))
           "007" "_bond"); [reflexivity|reflexivity|discriminate|reflexivity].
Defined.

(** ** Rendering from the persisted report *)

Lemma write_file_other name text fs n :
  n <> name -> write_file name text fs n = fs n.
Proof.
  intros H. unfold write_file.
  destruct (String.eqb_spec n name); [contradiction|reflexivity].
Qed.

(** X15: whatever happens, [generate_html_from_json] leaves every file but
    [treelist.html] as it was. *)
Theorem generate_html_only_writes_treelist
        (json_load : string -> result (odict json_value))
        (format_template : string -> string -> result string)
        (json_file : string) (fs : file_system) (name : string) :
  name <> "treelist.html" ->
  snd (generate_html_from_json json_load format_template json_file fs) name
  = fs name.
Proof.
  intros Hname. unfold generate_html_from_json.
  destruct (read_file "template.html" fs) as [template|e]; [|reflexivity].
  destruct (bind _ _) as [json_data|e]; [|reflexivity].
  destruct (negb (dict_mem "files" json_data)); [reflexivity|].
  destruct (bind _ _) as [tree_html|e]; [|reflexivity].
  destruct (format_template template tree_html) as [text|e]; cbn [snd];
    now rewrite ?write_file_other by exact Hname.
Qed.

Lemma generate_html_only_writes_treelist_witness :
  snd (generate_html_from_json
         (fun _ => Ok [("files", JFiles [mkEntry "a" false 1])])
         (fun template tree => Ok (template ++ tree)%string) "output.json"
         (write_file "template.html" "<html>"
                     (write_file "output.json" "{}" (fun _ => None))))
      "output.json"
  = Some "{}".
Proof.
  exact (generate_html_only_writes_treelist
           (fun _ => Ok [("files", JFiles [mkEntry "a" false 1])])
           (fun template tree => Ok (template ++ tree)%string) "output.json"
           (write_file "template.html" "<html>"
                       (write_file "output.json" "{}" (fun _ => None)))
           "output.json" ltac:(discriminate)).
Defined.

(** X16: whenever [generate_html_from_json] returns normally on a report
    that holds the entries under [files], [treelist.html] holds the template
    formatted with the rendering, from depth 1, of the tree built from those
    entries. *)
Theorem generate_html_outcome
        (json_load : string -> result (odict json_value))
        (format_template : string -> string -> result string)
        (json_file : string) (fs : file_system)
        (template text : string) (json_data : odict json_value)
        (entries : list Entry) :
  fs "template.html" = Some template ->
  fs json_file = Some text ->
  json_load text = Ok json_data ->
  dict_get "files" json_data = Some (JFiles entries) ->
  fst (generate_html_from_json json_load format_template json_file fs)
  = Ok tt ->
  exists tree tree_html page,
    build_tree_structure entries = Ok tree
    /\ generate_tree_html tree 1 = Ok tree_html
    /\ format_template template tree_html = Ok page
    /\ snd (generate_html_from_json json_load format_template json_file fs)
           "treelist.html"
       = Some page.
Proof.
  intros Ht Hj Hl Hk.
  destruct (build_tree_cleaned entries) as (c & E & _).
  destruct (generate_tree_html_total (PDict c) eq_refl 1) as (html & Hhtml).
  unfold generate_html_from_json, read_file.
  rewrite Ht, Hj. cbn [bind]. rewrite Hl. unfold dict_mem, dict_item.
  rewrite Hk. cbn [negb bind as_entries]. rewrite E. cbn [bind].
  rewrite Hhtml.
  destruct (format_template template html) as [page|e] eqn:Hf;
    cbn [fst snd]; [intros _|discriminate].
  exists (PDict c), html, page.
  split; [reflexivity|]. split; [exact Hhtml|]. split; [exact Hf|].
  unfold write_file. now rewrite String.eqb_refl.
Qed.

Lemma generate_html_outcome_witness :
  let fs := write_file "template.html" "<style>p{}</style>{tree_structure}"
              (write_file "output.json" "{}" (fun _ => None)) in
  let json_load := fun _ : string =>
                     Ok [("files", JFiles [mkEntry "a" false 1])] in
  let format_template := fun template tree : string =>
                           @Ok string (template ++ tree)%string in
  exists tree tree_html page,
    build_tree_structure [mkEntry "a" false 1] = Ok tree
    /\ generate_tree_html tree 1 = Ok tree_html
    /\ format_template "<style>p{}</style>{tree_structure}" tree_html
       = Ok page
    /\ snd (generate_html_from_json json_load format_template "output.json"
                                    fs)
           "treelist.html"
       = Some page.
Proof.
  cbv zeta.
  apply (generate_html_outcome _ _ "output.json" _
           "<style>p{}</style>{tree_structure}" "{}"
           [("files", JFiles [mkEntry "a" false 1])]); reflexivity.
Defined.

(** ** The command *)

(** X17: the remote's name, [args.remote.split(':')[0]], holds no colon and
    is the remote path itself or what stands before its first colon. *)
Theorem remote_name_before_colon (remote : string) :
  has_char ":" (remote_name_of remote) = false
  /\ (remote = remote_name_of remote
      \/ exists rest,
           remote = (remote_name_of remote ++ ":" ++ rest)%string).
Proof.
  unfold remote_name_of.
  pose proof (split_no_sep ":" remote) as Hno.
  pose proof (join_split ":" remote) as Hjoin. unfold PyStr.join in Hjoin.
  pose proof (split_not_nil ":" remote) as Hn.
  destruct (PyStr.split ":" remote) as [|name t]; [congruence|].
  inversion Hno as [|? ? Hname _]. split; [exact Hname|].
  destruct t as [|y t'].
  - left. now symmetry.
  - right. rewrite concat_cons in Hjoin. eexists. symmetry. exact Hjoin.
Qed.

Lemma fold_dict_set_fresh {V : Type} (l : list (string * V)) : forall acc,
  NoDup (keys l) ->
  (forall k, In k (keys l) -> ~ In k (keys acc)) ->
  fold_left (fun d kv => dict_set (fst kv) (snd kv) d) l acc
  = (acc ++ l)%list.
Proof.
  induction l as [|[k v] l IH]; intros acc Hnd Hfresh; cbn [fold_left].
  - now rewrite app_nil_r.
  - cbn [keys map fst snd] in *. inversion Hnd as [|? ? Hk Hl]; subst.
    rewrite dict_set_fresh by (apply Hfresh; now left).
    rewrite IH.
    + now rewrite <- app_assoc.
    + exact Hl.
    + intros k' Hk'. unfold keys. rewrite map_app, in_app_iff. cbn.
      intros [H|[<-|[]]]; [|contradiction].
      apply (Hfresh k'); [now right|exact H].
Qed.

Lemma dict_of_items_nodup {V : Type} (l : list (string * V)) :
  NoDup (keys l) -> dict_of_items l = l.
Proof.
  intros H. unfold dict_of_items.
  rewrite fold_dict_set_fresh; [reflexivity|exact H|].
  intros k _ [].
Qed.

Lemma keys_map_values {V W : Type} (f : V -> W) (l : odict V) :
  keys (map (fun kv => (fst kv, f (snd kv))) l) = keys l.
Proof. unfold keys. rewrite map_map. reflexivity. Qed.

Lemma dict_get_map_values {V W : Type} (f : V -> W) (l : odict V) k :
  dict_get k (map (fun kv => (fst kv, f (snd kv))) l)
  = option_map f (dict_get k l).
Proof.
  induction l as [|[k' v] l IH]; [reflexivity|]. cbn.
  destruct (String.eqb k' k); [reflexivity|exact IH].
Qed.

Lemma dict_get_perm {V : Type} (l l' : odict V) k :
  NoDup (keys l) -> Permutation l l' -> dict_get k l = dict_get k l'.
Proof.
  intros Hnd Hperm.
  assert (Hnd' : NoDup (keys l')).
  { eapply Permutation_NoDup; [|exact Hnd]. now apply Permutation_map. }
  destruct (dict_get k l) as [v|] eqn:E.
  - symmetry. apply NoDup_keys_get; [exact Hnd'|].
    eapply Permutation_in; [exact Hperm|]. now apply dict_get_In.
  - destruct (dict_get k l') as [v'|] eqn:E'; [|reflexivity].
    apply dict_get_In in E'. apply Permutation_sym in Hperm.
    apply (Permutation_in _ Hperm) in E'.
    rewrite (NoDup_keys_get l k v' Hnd E') in E. discriminate.
Qed.

Lemma string_ltb_total a b :
  String.ltb a b = false -> String.ltb b a = false -> a = b.
Proof.
  unfold String.ltb. rewrite (String.compare_antisym a b).
  destruct (String.compare b a) eqn:E; cbn; try discriminate.
  intros _ _. apply String.compare_eq_iff in E. now symmetry.
Qed.

Lemma not_after_trans_string {V : Type} (x y z : string * V) :
  not_after String.ltb fst x y -> not_after String.ltb fst y z ->
  not_after String.ltb fst x z.
Proof.
  unfold not_after. intros Hxy Hyz.
  apply string_ltb_leb in Hxy, Hyz. apply string_ltb_leb.
  eapply string_leb_trans; eassumption.
Qed.

Lemma sorted_items_facts {V : Type} (d : odict V) :
  NoDup (keys d) ->
  Permutation (sorted_items d) d
  /\ NoDup (keys (sorted_items d))
  /\ StronglySorted (fun a b => String.ltb (fst a) (fst b) = true)
                    (sorted_items d).
Proof.
  intros Hnd. unfold sorted_items.
  pose proof (sort_by_perm String.ltb (@fst string V) d) as Hperm.
  assert (Hnd' : NoDup (keys (sort_by String.ltb fst d))).
  { eapply Permutation_NoDup; [|exact Hnd].
    apply Permutation_map. now symmetry. }
  split; [exact Hperm|]. split; [exact Hnd'|].
  pose proof (sort_by_sorted String.ltb (@fst string V) string_ltb_asym
                (@not_after_trans_string V) d) as Hs.
  revert Hnd' Hs. generalize (sort_by String.ltb fst d). clear.
  induction l as [|x l IH]; intros Hnd Hs; [constructor|].
  inversion Hs as [|? ? Hl Hall]; subst.
  cbn in Hnd. inversion Hnd as [|? ? Hx Hnl]; subst.
  constructor; [now apply IH|].
  rewrite Forall_forall in *. intros y Hy. specialize (Hall y Hy).
  unfold not_after in Hall.
  destruct (String.ltb (fst x) (fst y)) eqn:E; [reflexivity|].
  exfalso. apply Hx. rewrite (string_ltb_total _ _ E Hall).
  now apply in_map.
Qed.

(** The data that [main] prints and saves without [--generate-tree]. *)
Lemma aggregate_data files depth unit :
  exists grouped,
    group_by_depth_and_sum_size files depth = Ok grouped
    /\ NoDup (keys grouped)
    /\ let data := dict_of_items
                     (sorted_items (converted_sizes grouped unit)) in
       Permutation data
                   (map (fun kv => (fst kv, convert_size (snd kv) unit))
                        grouped)
       /\ StronglySorted (fun a b => String.ltb (fst a) (fst b) = true) data
       /\ forall key,
            dict_get key data
            = option_map (fun v => convert_size v unit)
                         (dict_get key grouped).
Proof.
  destruct (group_loop_get depth files EmptyString) as (g & Hg & Hnd & _).
  exists g. split; [exact Hg|]. split; [exact Hnd|]. cbv zeta.
  unfold converted_sizes.
  assert (Hc : NoDup (keys (map (fun kv => (fst kv, convert_size (snd kv) unit))
                                g)))
    by (rewrite (keys_map_values (fun v => convert_size v unit) g);
        exact Hnd).
  rewrite (dict_of_items_nodup _ Hc).
  destruct (sorted_items_facts _ Hc) as (Hperm & Hnd' & Hsorted).
  rewrite (dict_of_items_nodup _ Hnd').
  split; [exact Hperm|]. split; [exact Hsorted|].
  intros key. rewrite (dict_get_perm _ _ key Hnd' Hperm).
  apply (dict_get_map_values (fun v => convert_size v unit)).
Qed.

Section MainFacts.
Variable subprocess_run : list string -> Z * string * string.
Variable json_loads : string -> result (list Entry).
Variable json_dump : odict json_value -> string.
Variable json_load : string -> result (odict json_value).
Variable format_template : string -> string -> result string.

Local Abbreviation run_main :=
  (main subprocess_run json_loads json_dump json_load format_template).

Lemma run_rclone_returns remote stdout stderr files :
  subprocess_run ["rclone"; "lsjson"; remote; "--recursive"]
  = (0, stdout, stderr) ->
  json_loads stdout = Ok files ->
  run_rclone_lsjson subprocess_run json_loads remote = Returns files.
Proof.
  intros Hrun Hload. unfold run_rclone_lsjson. rewrite Hrun. cbn.
  now rewrite Hload.
Qed.

Lemma generate_html_frame json_file fs name :
  name <> "treelist.html" ->
  snd (generate_html_from_json json_load format_template json_file fs) name
  = fs name.
Proof.
  intros Hname. unfold generate_html_from_json.
  destruct (read_file "template.html" fs) as [template|e]; [|reflexivity].
  destruct (bind _ _) as [json_data|e]; [|reflexivity].
  destruct (negb (dict_mem "files" json_data)); [reflexivity|].
  destruct (bind _ _) as [tree_html|e]; [|reflexivity].
  destruct (format_template template tree_html) as [text|e]; cbn [snd];
    now rewrite ?write_file_other by exact Hname.
Qed.

(** X18: [main] writes no file but the output file and, with
    [--generate-tree], [treelist.html]; when rclone exits with a code other
    than zero it raises the exception with rclone's error text, writes
    nothing and has printed the first line only. *)
Theorem main_writes (args : Args) (fs : file_system) :
  (forall name,
      name <> arg_output args ->
      (arg_generate_tree args = true -> name <> "treelist.html") ->
      snd (fst (run_main args fs)) name = fs name)
  /\ (forall returncode stdout stderr,
         subprocess_run ["rclone"; "lsjson"; arg_remote args; "--recursive"]
         = (returncode, stdout, stderr) ->
         returncode <> 0 ->
         run_main args fs
         = (RaisesException ("Error running rclone: " ++ stderr), fs,
            ["Fetching data from " ++ arg_remote args ++ "..."])).
Proof.
  split.
  - intros name Hout Htree. unfold main.
    destruct (run_rclone_lsjson _ _ _) as [files|e|msg]; try reflexivity.
    destruct (arg_generate_tree args).
    + pose proof (generate_html_frame (arg_output args)
                    (save_files_data json_dump files (arg_output args)
                       (remote_name_of (arg_remote args)) (arg_unit args) fs)
                    name (Htree eq_refl)) as Hframe.
      destruct (generate_html_from_json _ _ _ _) as [[u|e] fs'];
        cbn [fst snd] in *; rewrite Hframe;
        unfold save_files_data; now apply write_file_other.
    + destruct (group_by_depth_and_sum_size _ _) as [grouped|e];
        [|reflexivity].
      cbn [fst snd]. unfold save_grouped_data. now apply write_file_other.
  - intros rc stdout stderr Hrun Hrc. unfold main, run_rclone_lsjson.
    rewrite Hrun. destruct (Z.eqb_spec rc 0); [contradiction|reflexivity].
Qed.

Lemma main_aggregate_eq args fs stdout stderr files :
  arg_generate_tree args = false ->
  subprocess_run ["rclone"; "lsjson"; arg_remote args; "--recursive"]
  = (0, stdout, stderr) ->
  json_loads stdout = Ok files ->
  exists grouped,
    group_by_depth_and_sum_size files (arg_depth args) = Ok grouped
    /\ run_main args fs
       = let data := dict_of_items
                       (sorted_items
                          (converted_sizes grouped (arg_unit args))) in
         (Returns tt,
          write_file (arg_output args)
            (json_dump [("remote", JString (remote_name_of (arg_remote args)));
                        ("unit", JString (arg_unit args));
                        ("directories", JSizes data)]) fs,
          aggregate_lines args data).
Proof.
  intros Hmode Hrun Hload.
  destruct (aggregate_data files (arg_depth args) (arg_unit args))
    as (g & Hg & _).
  exists g. split; [exact Hg|].
  unfold main. rewrite (run_rclone_returns _ _ _ _ Hrun Hload), Hmode, Hg.
  reflexivity.
Qed.

(** X19: without [--generate-tree], once rclone has listed the entries,
    [main] prints -- before it opens the output file -- one line for each
    group, in strictly ascending order of the keys, every key with the
    converted sum of the sizes of its files; when no group's sum reaches
    2^53 in absolute value the converted sums are binary64 values, so the
    floats of the program are these quotients. *)
Theorem main_aggregate_report (args : Args) (fs : file_system)
        (stdout stderr : string) (files : list Entry) :
  arg_generate_tree args = false ->
  subprocess_run ["rclone"; "lsjson"; arg_remote args; "--recursive"]
  = (0, stdout, stderr) ->
  json_loads stdout = Ok files ->
  (forall key,
      Z.abs (sumZ (map Size
                       (filter (fun f => negb (IsDir f)
                                         && String.eqb
                                              (dir_path (arg_depth args) f)
                                              key) files))) < 2 ^ 53) ->
  exists data,
    snd (run_main args fs) = aggregate_lines args data
    /\ StronglySorted (fun a b => String.ltb (fst a) (fst b) = true) data
    /\ (forall key,
          dict_get key data
          = match filter (fun f => negb (IsDir f)
                                   && String.eqb (dir_path (arg_depth args) f)
                                                 key) files with
            | [] => None
            | mine =>
                Some (convert_size (sumZ (map Size mine)) (arg_unit args))
            end)
    /\ Forall (fun kv => binary64_exact (snd kv)) data.
Proof.
  intros Hmode Hrun Hload Hsmall.
  destruct (main_aggregate_eq args fs _ _ _ Hmode Hrun Hload)
    as (g & Hg & Hmain).
  destruct (aggregate_data files (arg_depth args) (arg_unit args))
    as (g' & Hg' & Hnd & Hperm & Hsorted & Hget).
  rewrite Hg in Hg'. injection Hg' as <-.
  eexists. split; [rewrite Hmain; reflexivity|]. split; [exact Hsorted|].
  split.
  - intros key. cbv zeta in Hget. rewrite Hget.
    destruct (group_loop_get (arg_depth args) files key)
      as (g2 & Hg2 & _ & Hk).
    rewrite Hg in Hg2. injection Hg2 as <-. rewrite Hk. cbv zeta.
    set (p := fun f => negb (IsDir f)
                       && String.eqb (dir_path (arg_depth args) f) key).
    assert (E : existsb p files
                = match filter p files with [] => false | _ => true end).
    { clear. induction files as [|f fs' IH]; [reflexivity|]. cbn.
      destruct (p f); [reflexivity|exact IH]. }
    rewrite E. now destruct (filter p files).
  - eapply Permutation_Forall; [symmetry; exact Hperm|].
    apply Forall_forall. intros kv Hin.
    apply in_map_iff in Hin. destruct Hin as ([k v] & <- & Hin).
    cbn [fst snd]. apply convert_size_binary64.
    destruct (group_loop_get (arg_depth args) files k)
      as (g2 & Hg2 & _ & Hk).
    rewrite Hg in Hg2. injection Hg2 as <-.
    rewrite (NoDup_keys_get _ _ _ Hnd Hin) in Hk. cbv zeta in Hk.
    destruct (existsb _ files); [|discriminate].
    injection Hk as ->. apply Hsmall.
Qed.
End MainFacts.

Lemma main_writes_witness :
  main (fun _ => (1, "", "no such remote")) (fun _ => Ok [])
       (fun _ => "{}") (fun _ => Ok []) (fun _ _ => Ok "x")
       (mkArgs "gd:" "out.json" 1 "kb" true) (fun _ => None)
  = (RaisesException "Error running rclone: no such remote",
     fun _ => None, ["Fetching data from gd:..."]).
Proof.
  exact (proj2 (main_writes (fun _ => (1, "", "no such remote"))
                  (fun _ => Ok []) (fun _ => "{}") (fun _ => Ok [])
                  (fun _ _ => Ok "x")
                  (mkArgs "gd:" "out.json" 1 "kb" true) (fun _ => None))
               1 EmptyString "no such remote" eq_refl ltac:(discriminate)).
Defined.

Lemma main_aggregate_report_witness :
  exists data,
    snd (main (fun _ => (0, "[]", EmptyString))
              (fun _ => Ok [mkEntry "b/f" false 2048;
                            mkEntry "a/g" false 1024])
              (fun _ => "{}") (fun _ => Ok []) (fun _ _ => Ok "x")
              (mkArgs "gd:" "out.json" 1 "kb" false) (fun _ => None))
    = aggregate_lines (mkArgs "gd:" "out.json" 1 "kb" false) data
    /\ StronglySorted (fun a b => String.ltb (fst a) (fst b) = true) data
    /\ (forall key,
          dict_get key data
          = match filter (fun f => negb (IsDir f)
                                   && String.eqb (dir_path 1 f) key)
                         [mkEntry "b/f" false 2048; mkEntry "a/g" false 1024]
            with
            | [] => None
            | mine => Some (convert_size (sumZ (map Size mine)) "kb")
            end)
    /\ Forall (fun kv => binary64_exact (snd kv)) data.
Proof.
  apply (main_aggregate_report (fun _ => (0, "[]", EmptyString))
           (fun _ => Ok [mkEntry "b/f" false 2048; mkEntry "a/g" false 1024])
           (fun _ => "{}") (fun _ => Ok []) (fun _ _ => Ok "x")
           (mkArgs "gd:" "out.json" 1 "kb" false) (fun _ => None)
           "[]" EmptyString _ eq_refl eq_refl eq_refl).
  intros key. cbn [filter IsDir negb andb arg_depth].
  destruct (String.eqb _ key), (String.eqb _ key); reflexivity.
Defined.

Lemma strictly_sorted_unique {V : Type} (l : list (string * V)) : forall l',
  StronglySorted (fun a b => String.ltb (fst a) (fst b) = true) l ->
  StronglySorted (fun a b => String.ltb (fst a) (fst b) = true) l' ->
  Permutation l l' -> l = l'.
Proof.
  induction l as [|x r IH]; intros l' Hs Hs' Hperm.
  - apply Permutation_nil in Hperm. now symmetry.
  - destruct l' as [|y r'];
      [apply Permutation_sym, Permutation_nil in Hperm; discriminate|].
    inversion Hs as [|? ? Hr Hall]; subst.
    inversion Hs' as [|? ? Hr' Hall']; subst.
    assert (Hxy : x = y).
    { assert (Hx : In x (y :: r'))
        by (eapply Permutation_in; [exact Hperm|now left]).
      assert (Hy : In y (x :: r))
        by (eapply Permutation_in;
            [apply Permutation_sym; exact Hperm|now left]).
      destruct Hx as [Hx|Hx]; [now symmetry|].
      destruct Hy as [Hy|Hy]; [exact Hy|].
      rewrite Forall_forall in Hall, Hall'.
      pose proof (Hall y Hy) as H1. pose proof (Hall' x Hx) as H2.
      apply string_ltb_asym in H1. congruence. }
    subst y. f_equal. apply IH; auto.
    now apply Permutation_cons_inv in Hperm.
Qed.

Lemma group_get_perm files files' depth key :
  Permutation files files' ->
  forall g g',
    group_by_depth_and_sum_size files depth = Ok g ->
    group_by_depth_and_sum_size files' depth = Ok g' ->
    dict_get key g = dict_get key g'.
Proof.
  intros Hperm g g' Hg Hg'.
  destruct (group_loop_get depth files key) as (g0 & E & _ & Hk).
  destruct (group_loop_get depth files' key) as (g0' & E' & _ & Hk').
  rewrite Hg in E. rewrite Hg' in E'.
  injection E as <-. injection E' as <-.
  rewrite Hk, Hk'. cbv zeta.
  now rewrite (existsb_perm _ _ _ Hperm), (sumZ_filter_perm _ _ _ Hperm).
Qed.

Lemma dict_perm_of_get {V : Type} (g g' : odict V) :
  NoDup (keys g) -> NoDup (keys g') ->
  (forall key, dict_get key g = dict_get key g') ->
  Permutation g g'.
Proof.
  intros Hn Hn' Hget. apply NoDup_Permutation.
  - eapply NoDup_map_inv. exact Hn.
  - eapply NoDup_map_inv. exact Hn'.
  - intros [k v]. split; intros Hin.
    + apply dict_get_In. rewrite <- Hget. now apply NoDup_keys_get.
    + apply dict_get_In. rewrite Hget. now apply NoDup_keys_get.
Qed.

(** X20: without [--generate-tree], what [main] saves and prints does not
    depend on the order in which rclone lists the entries. *)
Theorem main_aggregate_order_free
        (subprocess_run : list string -> Z * string * string)
        (json_loads json_loads' : string -> result (list Entry))
        (json_dump : odict json_value -> string)
        (json_load : string -> result (odict json_value))
        (format_template : string -> string -> result string)
        (args : Args) (fs : file_system) (stdout stderr : string)
        (files files' : list Entry) :
  arg_generate_tree args = false ->
  subprocess_run ["rclone"; "lsjson"; arg_remote args; "--recursive"]
  = (0, stdout, stderr) ->
  json_loads stdout = Ok files ->
  json_loads' stdout = Ok files' ->
  Permutation files files' ->
  main subprocess_run json_loads json_dump json_load format_template args fs
  = main subprocess_run json_loads' json_dump json_load format_template
         args fs.
Proof.
  intros Hmode Hrun Hload Hload' Hperm.
  destruct (main_aggregate_eq subprocess_run json_loads json_dump json_load
              format_template args fs _ _ _ Hmode Hrun Hload)
    as (g & Hg & ->).
  destruct (main_aggregate_eq subprocess_run json_loads' json_dump json_load
              format_template args fs _ _ _ Hmode Hrun Hload')
    as (g' & Hg' & ->).
  destruct (aggregate_data files (arg_depth args) (arg_unit args))
    as (g0 & E & Hn & Hp & Hs & _).
  destruct (aggregate_data files' (arg_depth args) (arg_unit args))
    as (g0' & E' & Hn' & Hp' & Hs' & _).
  rewrite Hg in E. rewrite Hg' in E'.
  injection E as <-. injection E' as <-. cbv zeta in *.
  assert (Hgg : Permutation g g').
  { apply dict_perm_of_get; auto. intros key.
    eapply group_get_perm; eauto. }
  replace (dict_of_items (sorted_items (converted_sizes g' (arg_unit args))))
    with (dict_of_items (sorted_items (converted_sizes g (arg_unit args))));
    [reflexivity|].
  apply strictly_sorted_unique; auto.
  rewrite Hp, Hp'. now apply Permutation_map.
Qed.

Lemma main_aggregate_order_free_witness :
  main (fun _ => (0, "[]", EmptyString))
       (fun _ => Ok [mkEntry "b/f" false 2048; mkEntry "a/g" false 1024])
       (fun _ => "{}") (fun _ => Ok []) (fun _ _ => Ok "x")
       (mkArgs "gd:" "out.json" 1 "kb" false) (fun _ => None)
  = main (fun _ => (0, "[]", EmptyString))
         (fun _ => Ok [mkEntry "a/g" false 1024; mkEntry "b/f" false 2048])
         (fun _ => "{}") (fun _ => Ok []) (fun _ _ => Ok "x")
         (mkArgs "gd:" "out.json" 1 "kb" false) (fun _ => None).
Proof.
  apply (main_aggregate_order_free _ _ _ _ _ _ _ _ "[]" EmptyString
           [mkEntry "b/f" false 2048; mkEntry "a/g" false 1024]
           [mkEntry "a/g" false 1024; mkEntry "b/f" false 2048]);
    try reflexivity.
  apply perm_swap.
Defined.




(** ** Paths, flat listings and whole bytes *)

Lemma rstrip_tail c s :
  exists tail,
    s = (PyStr.rstrip c s ++ tail)%string /\ only_char c tail = true.
Proof.
  induction s as [|a r (tail & Hs & Ht)].
  - exists EmptyString. split; reflexivity.
  - cbn [PyStr.rstrip]. destruct (PyStr.rstrip c r) as [|b r'] eqn:E.
    + destruct (Ascii.eqb_spec a c) as [->|Hne].
      * exists (String c tail). split.
        -- cbn in *. now rewrite <- Hs.
        -- cbn. now rewrite Ascii.eqb_refl.
      * exists tail. split; [|exact Ht]. cbn in *. now rewrite <- Hs.
    + exists tail. split; [|exact Ht].
      change (String a (String b r') ++ tail)%string
        with (String a (String b r' ++ tail)).
      now rewrite <- Hs.
Qed.

(** X22: [rstrip('/')] takes away the slashes at the end and nothing else:
    the path is the result followed by slashes only, the result does not end
    with a slash, and stripping again changes nothing. *)
Theorem rstrip_removes_trailing (c : ascii) (s : string) :
  (exists tail,
      s = (PyStr.rstrip c s ++ tail)%string /\ only_char c tail = true)
  /\ last_char (PyStr.rstrip c s) <> Some c
  /\ PyStr.rstrip c (PyStr.rstrip c s) = PyStr.rstrip c s.
Proof.
  split; [apply rstrip_tail|]. split; [apply rstrip_last_char|].
  pose proof (rstrip_last_char c s) as Hlast.
  revert Hlast. generalize (PyStr.rstrip c s). clear.
  induction s as [|a r IH]; [reflexivity|]. intros Hlast.
  cbn [PyStr.rstrip].
  destruct r as [|b r'].
  - cbn in *. destruct (Ascii.eqb_spec a c); [congruence|reflexivity].
  - rewrite last_char_cons in Hlast. rewrite (IH Hlast). reflexivity.
Qed.

Lemma marked_dir_files_only entries p :
  Forall (fun e => IsDir e = false) entries -> marked_dir entries p = false.
Proof.
  unfold marked_dir. induction 1 as [|e l He _ IH]; [reflexivity|].
  cbn. now rewrite He, IH.
Qed.

Lemma is_dir_value_cleaned_node s cc b :
  is_dir_value (cleaned_node s cc b) = b.
Proof.
  unfold is_dir_value, cleaned_node. now rewrite dict_get_cleaned_node.
Qed.

Lemma cleaned_flags t c :
  cleaned t c ->
  forall k v, In (k, v) c ->
    exists v', In (k, v') t /\ is_dir_value v = node_isdir v'.
Proof.
  induction 1 as [|k s cs b rest cc crest _ _ _ IH]; intros k' v; [intros []|].
  intros [[= <- <-]|Hin].
  - exists (mk_node s cs b). split; [now left|].
    now rewrite is_dir_value_cleaned_node.
  - destruct (IH _ _ Hin) as (v' & Hv' & E). exists v'. split; [now right|auto].
Qed.

(** X23: a listing without directory entries is rendered flat: no node is
    flagged, so the markup is the list of the top-level names, each as a
    file, and nothing beneath them is shown. *)
Theorem files_only_renders_flat (entries : list Entry) :
  Forall (fun e => IsDir e = false) entries ->
  exists c names,
    build_tree_structure entries = Ok (PDict c)
    /\ generate_tree_html (PDict c) 1
       = Ok ("<ul>" ++ concat_all (map file_li names) ++ "</ul>")%string
    /\ Permutation names (filter (fun k => negb (reserved k)) (keys c)).
Proof.
  intros Hfiles.
  destruct (build_tree_cleaned entries) as (c & E & Hc).
  destruct (raw_tree_insert node_literal entries) as [_ Hwf].
  assert (Hnodir : dir_children c = []).
  { unfold dir_children.
    assert (H : forall kv, In kv c ->
                  negb (reserved (fst kv)) && is_dir_value (snd kv) = false).
    { intros [k v] Hin. cbn [fst snd].
      destruct (cleaned_flags _ _ Hc k v Hin) as (v' & Hv' & ->).
      pose proof (NoDup_keys_get _ k v' (wf_tree_keys _ _ Hwf) Hv') as G.
      destruct (node_at_entries entries [k] ltac:(discriminate))
        as (_ & _ & H3 & _).
      rewrite node_at_single, G in H3. cbn [node_or_new] in H3.
      rewrite H3, (marked_dir_files_only _ _ Hfiles). apply andb_false_r. }
    revert H. generalize c as l. clear.
    induction l as [|kv l IH]; intros H; [reflexivity|].
    cbn [filter]. rewrite (H kv (or_introl eq_refl)).
    apply IH. intros kv' Hin. apply H. now right. }
  exists c, (map item_name (sort_files (rendered (file_children c) 1))).
  split; [exact E|]. split.
  - rewrite generate_tree_html_eq, split_items_rendered, Hnodir.
    unfold sort_dirs. cbn [Z.eqb Pos.eqb rendered map sort_by fold_right
                            emit_dirs bind].
    rewrite emit_files_eq, string_app_assoc, map_map. reflexivity.
  - etransitivity; [apply Permutation_map, sort_by_perm|].
    rewrite map_item_name_rendered. unfold file_children, keys.
    assert (Hall : forall kv, In kv c -> is_dir_value (snd kv) = false).
    { intros [k v] Hin. cbn [snd].
      destruct (cleaned_flags _ _ Hc k v Hin) as (v' & Hv' & ->).
      pose proof (NoDup_keys_get _ k v' (wf_tree_keys _ _ Hwf) Hv') as G.
      destruct (node_at_entries entries [k] ltac:(discriminate))
        as (_ & _ & H3 & _).
      rewrite node_at_single, G in H3. cbn [node_or_new] in H3.
      now rewrite H3, (marked_dir_files_only _ _ Hfiles). }
    revert Hall. generalize c as l. clear.
    induction l as [|[k v] l IH]; intros H; [reflexivity|].
    pose proof (H (k, v) (or_introl eq_refl)) as Hv. cbn [snd] in Hv.
    cbn [filter map fst snd]. rewrite Hv.
    cbn [negb]. rewrite andb_true_r.
    destruct (negb (reserved k)); cbn [map fst];
      [apply perm_skip|]; apply IH; intros kv Hin; apply H; now right.
Qed.

Lemma files_only_renders_flat_witness :
  exists c names,
    build_tree_structure
      [mkEntry "a/b/f1.txt" false 100; mkEntry "top.txt" false 5] = Ok (PDict c)
    /\ generate_tree_html (PDict c) 1
       = Ok ("<ul>" ++ concat_all (map file_li names) ++ "</ul>")%string
    /\ Permutation names (filter (fun k => negb (reserved k)) (keys c)).
Proof.
  apply files_only_renders_flat. repeat constructor.
Defined.

(** X24: in bytes, and in every unit the table does not know, a size below
    2^53 in absolute value is converted to the float of the same value, and
    the report prints the byte count itself with two zero decimals. *)
Theorem format_whole_bytes (size_bytes : Z) (unit : string) :
  unit_divisor unit = 1 ->
  Z.abs size_bytes < 2 ^ 53 ->
  binary64_exact (convert_size size_bytes unit)
  /\ (convert_size size_bytes unit == inject_Z size_bytes)%Q
  /\ format_2f (convert_size size_bytes unit)
     = ((if (size_bytes <? 0)%Z then "-" else EmptyString)
        ++ NilZero.string_of_uint (N.to_uint (Z.to_N (Z.abs size_bytes)))
        ++ ".00")%string.
Proof.
  intros Hdiv Hn.
  split; [now apply convert_size_binary64|].
  unfold convert_size. rewrite Hdiv. split.
  - unfold Qdiv. change (/ inject_Z 1)%Q with 1%Q. apply Qmult_1_r.
  - unfold format_2f, round_half_even.
    cbn [inject_Z Qdiv Qinv Qmult Qnum Qden Pos.mul].
    rewrite Z.mul_1_r. cbn [Qnum Qden].
    rewrite Z.mod_1_r, Z.div_1_r. cbn [Z.mul Z.ltb Z.compare].
    rewrite Z.div_mul by discriminate. rewrite Z.mod_mul by discriminate.
    reflexivity.
Qed.

Lemma format_whole_bytes_witness :
  binary64_exact (convert_size 2048 "bytes")
  /\ (convert_size 2048 "bytes" == inject_Z 2048)%Q
  /\ format_2f (convert_size 2048 "bytes") = "2048.00".
Proof. apply format_whole_bytes; reflexivity. Defined.
